(** * finkles: the swarm launcher of [main.go]

    A shallow embedding of [ScriptConfig.Start] (main.go, lines 46-144) and of
    the parts of Go's [strings] package it calls, followed by the properties
    of the launcher that the specification states.

    Conventions of the embedding:
    - a Go [string] is a [string] (a sequence of 8-bit characters);
    - a Go [error] value is an [option error], [None] being [nil];
    - a pointer that may be [nil] is an [option];
    - a run-time panic is an explicit outcome, kept apart from a returned
      [error];
    - everything [Start] asks of the operating system is answered by an
      environment [Env]; what [Start] does to the outside world is recorded
      as a list of [event]s, oldest first. *)

From Stdlib Require Import String Ascii List Bool Arith NArith Lia.
Import ListNotations.
Open Scope string_scope.

(** ** Go's [strings] package: [HasPrefix], [Index], [Contains], [Split] *)

Module strings.

(** [s[:n]]: the first [n] bytes of [s]. *)
Fixpoint slice_to (s : string) (n : nat) : string :=
  match n, s with
  | S n', String c s' => String c (slice_to s' n')
  | _, _ => EmptyString
  end.

(** [s[n:]]: [s] without its first [n] bytes. *)
Fixpoint slice_from (s : string) (n : nat) : string :=
  match n, s with
  | S n', String _ s' => slice_from s' n'
  | _, _ => s
  end.

(** [strings.HasPrefix(s, prefix)]. *)
Fixpoint HasPrefix (s prefix : string) : bool :=
  match prefix, s with
  | EmptyString, _ => true
  | String p prefix', String c s' => Ascii.eqb c p && HasPrefix s' prefix'
  | String _ _, EmptyString => false
  end.

(** [strings.Index(s, substr)]: the byte offset of the first instance of
    [substr] in [s]; [None] stands for Go's [-1]. *)
Fixpoint Index (s substr : string) : option nat :=
  if HasPrefix s substr then Some 0
  else match s with
       | EmptyString => None
       | String _ s' => option_map S (Index s' substr)
       end.

(** [strings.Contains(s, substr)] is [Index(s, substr) >= 0]. *)
Definition Contains (s substr : string) : bool :=
  match Index s substr with Some _ => true | None => false end.

(** The loop of [strings.genSplit]: cut [s] at each instance of [sep], from
    the left, instances not overlapping.  [fuel] bounds the number of cuts;
    Go bounds it by [Count(s, sep)]. *)
Fixpoint genSplit (fuel : nat) (s sep : string) : list string :=
  match fuel with
  | O => [s]
  | S fuel' =>
      match Index s sep with
      | None => [s]
      | Some m =>
          slice_to s m :: genSplit fuel' (slice_from s (m + String.length sep)) sep
      end
  end.

(** [strings.Split(s, sep)] for a non-empty [sep], the only kind [Start]
    passes.  A non-empty separator is found at most [length s] times, so
    the fuel never runs out: [strings_facts.Split_step]. *)
Definition Split (s sep : string) : list string :=
  genSplit (String.length s) s sep.

End strings.

(** ** Panics and errors *)

(** The one run-time panic [Start] can raise: indexing a slice of length
    [len] at [index]. *)
Inductive panic : Type :=
| IndexOutOfRange (index len : nat).

(** A computation either returns or panics. *)
Inductive outcome (A : Type) : Type :=
| Returns (a : A)
| Panics (p : panic).

Arguments Returns {A} a.
Arguments Panics {A} p.

(** [a[i]] on a slice. *)
Definition at_index (a : list string) (i : nat) : outcome string :=
  match nth_error a i with
  | Some x => Returns x
  | None => Panics (IndexOutOfRange i (List.length a))
  end.

(** Go [error] values, as far as [Start] and its callers tell them apart. *)
Inductive error : Type :=
| io_EOF                  (* io.EOF: what ReadLine returns at end of input *)
| ErrNotExist             (* an error for which os.IsNotExist holds *)
| ErrOther (msg : string) (* any other error value *).

(** [os.IsNotExist(err)]; false on a [nil] error. *)
Definition IsNotExist (err : option error) : bool :=
  match err with
  | Some ErrNotExist => true
  | _ => false
  end.

(** ** Data model (main.go, lines 16-43) *)

Definition DefaultNumNodes : N := 8.

(** [exec.Cmd], as far as it is built by [exec.Command(name, arg...)]. *)
Record Cmd : Type := exec_Command { Path : string; Args : list string }.

(** The anonymous struct behind [ScriptConfig.Nodes].  [N] is a [uint64]:
    a value below [2^64]. *)
Module Nodes.
Record t : Type := mk {
  N : BinNums.N;
  Args : option (list string);
  Callback : option string
}.
End Nodes.

Record ScriptConfig : Type := {
  Nodes : option Nodes.t;
  DataDir : option string;
  Steps : option (list string)
}.

Record State : Type := { Workers : list Cmd }.

(** ** The outside world *)

(** How one [smcd -n] child behaves: the result of [cmd.StderrPipe()], the
    result of [cmd.Start()], and what successive [reader.ReadLine()] calls
    on its standard error yield: the lines of [stderr_lines], one per call,
    then the error [stderr_end] ([io_EOF] when the stream just ends).  A
    line is whatever one call returns, without its end-of-line bytes: the
    source drops [isPrefix], so a line longer than the reader's buffer
    counts as several.  A child that neither logs on nor closes its stream
    keeps [Start] waiting for ever; such a run has no [Proc]. *)
Record Proc : Type := {
  pipe_err : option error;
  start_err : option error;
  stderr_lines : list string;
  stderr_end : error
}.

(** The answers of the operating system.  [child i] is the command built in
    iteration [i] of the spawn loop. *)
Record Env : Type := {
  os_Stat : string -> option error;
  exec_LookPath : string -> option error;
  Run : Cmd -> option error;
  child : N -> Proc
}.

(** What [Start] does to the outside world. *)
Inductive event : Type :=
| Logged (msg : string) (n : option N) (* log.Info, with the field "n" if any *)
| Ran (cmd : Cmd)                      (* cmd.Run(): started and waited for *)
| Started (i : N) (cmd : Cmd)          (* cmd.Start() succeeded: a new child *)
| ReadLine (i : N)                     (* one reader.ReadLine() on child i *).

(** ** The monad of [Start]: outcome and events *)

Definition M (A : Type) : Type := (outcome A * list event)%type.

Definition ret {A : Type} (a : A) : M A := (Returns a, []).

Definition bind {A B : Type} (m : M A) (f : A -> M B) : M B :=
  match m with
  | (Returns a, t1) => let (r, t2) := f a in (r, (t1 ++ t2)%list)
  | (Panics p, t1) => (Panics p, t1)
  end.

Definition emit (e : event) : M unit := (Returns tt, [e]).

Definition lift {A : Type} (o : outcome A) : M A := (o, []).

Declare Scope go_scope.
Delimit Scope go_scope with go.
Notation "x <- c1 ;; c2" := (bind c1 (fun x => c2))
  (at level 61, c1 at next level, right associativity) : go_scope.
Notation "c1 ;; c2" := (bind c1 (fun _ => c2))
  (at level 61, right associativity) : go_scope.
Open Scope go_scope.

(** ** Fact extraction (main.go, lines 112-124) *)

(** [strings.Split(line, "peer ID: ")[1]]. *)
Definition peer_id_of (line : string) : outcome string :=
  at_index (strings.Split line "peer ID: ") 1.

(** [strings.Split(strings.Split(line, "Assigned to new address; listening
    on ")[1], " now")[0]]. *)
Definition address_of (line : string) : outcome string :=
  match at_index (strings.Split line "Assigned to new address; listening on ") 1 with
  | Returns rest => at_index (strings.Split rest " now") 0
  | Panics p => Panics p
  end.

(** Lines 115-117: the peer-ID rule. *)
Definition peer_id_rule (line : string) (bootstrapNode : list string)
  : outcome (list string) :=
  if strings.Contains line "peer ID" then
    match peer_id_of line with
    | Returns id => Returns (bootstrapNode ++ [id])%list
    | Panics p => Panics p
    end
  else Returns bootstrapNode.

(** Lines 122-124: the address rule. *)
Definition address_rule (line : string) (bootstrapNode : list string)
  : outcome (list string) :=
  if strings.Contains line "Assigned to new address"
     && (List.length bootstrapNode <? 2)%nat then
    match address_of line with
    | Returns addr => Returns (bootstrapNode ++ [addr])%list
    | Panics p => Panics p
    end
  else Returns bootstrapNode.

(** Lines 115-124: what one line does to [bootstrapNode]. *)
Definition scan_line (line : string) (bootstrapNode : list string)
  : outcome (list string) :=
  match peer_id_rule line bootstrapNode with
  | Returns bn => address_rule line bn
  | Panics p => Panics p
  end.

(** ** Bootstrap discovery (main.go, lines 102-131) *)

(** The [for { ... }] loop over the lines of child [i].  [inl err] is the
    [return nil, err] of line 105, [inr bootstrapNode] the [break] of line
    129. *)
Fixpoint read_loop (i : N) (lines : list string) (end_err : error)
  (bootstrapNode : list string) : M (error + list string) :=
  emit (ReadLine i) ;;
  match lines with
  | [] => ret (inl end_err)
  | line :: rest =>
      bn <- lift (scan_line line bootstrapNode) ;;
      if (2 <=? List.length bn)%nat then ret (inr bn)
      else read_loop i rest end_err bn
  end.

(** Lines 83-131: start the bootstrap node and scan its log. *)
Definition bootstrap (env : Env) (i : N) (bootstrapNode : list string)
  : M (error + list string) :=
  emit (Logged "Starting a bootstrap node for the swarm" None) ;;
  let cmd := exec_Command "smcd" ["-n"] in
  match pipe_err (child env i) with
  | Some err => ret (inl err)
  | None =>
      match start_err (child env i) with
      | Some err => ret (inl err)
      | None =>
          emit (Started i cmd) ;;
          read_loop i (stderr_lines (child env i)) (stderr_end (child env i))
            bootstrapNode
      end
  end.

(** ** The spawn loop (main.go, lines 79-140) *)

(** [for i := uint64(0); i < n; i++], entered at [i] with [remaining = n - i]
    iterations to go.  Lines 134-139 are comments: an iteration that finds
    [bootstrapNode] set does nothing. *)
Fixpoint spawn_loop (env : Env) (remaining : nat) (i : N)
  (bootstrapNode : list string) : M (error + list string) :=
  match remaining with
  | O => ret (inr bootstrapNode)
  | S remaining' =>
      r <- match bootstrapNode with
           | [] => bootstrap env i bootstrapNode
           | _ :: _ => ret (inr bootstrapNode)
           end ;;
      match r with
      | inl err => ret (inl err)
      | inr bn => spawn_loop env remaining' (i + 1)%N bn
      end
  end.

(** ** [Start] (main.go, lines 46-144) *)

(** Lines 47-54. *)
Definition num_nodes (cfg : ScriptConfig) : N :=
  match Nodes cfg with
  | Some nodes => Nodes.N nodes
  | None => DefaultNumNodes
  end.

(** The condition of line 63. *)
Definition must_install (env : Env) : bool :=
  let err := os_Stat env "cargo.toml" in
  match exec_LookPath env "smcd" with Some _ => true | None => false end
  || match err with None => true | Some _ => false end
  || negb (IsNotExist err).

(** Lines 59-71: [Some err] is the [return nil, err] of line 69. *)
Definition install (env : Env) : M (option error) :=
  if must_install env then
    emit (Logged "Installing SMCd" None) ;;
    let cmd := exec_Command "cargo" ["install"; "--path"; "."] in
    emit (Ran cmd) ;;
    ret (Run env cmd)
  else ret None.

(** Lines 73-143, for a node count [n]. *)
Definition spawn (n : N) (env : Env) : M (option State * option error) :=
  let state := {| Workers := [] |} in
  failed <- install env ;;
  match failed with
  | Some err => ret (None, Some err)
  | None =>
      emit (Logged "Spawning a swarm of SummerCash nodes" (Some n)) ;;
      r <- spawn_loop env (N.to_nat n) 0%N [] ;;
      match r with
      | inl err => ret (None, Some err)
      | inr _ => ret (Some state, None)
      end
  end.

Definition Start (cfg : ScriptConfig) (env : Env)
  : M (option State * option error) :=
  spawn (num_nodes cfg) env.

(** ** The command line (main.go, lines 146-249) *)

(** [Config]: the embedded [ScriptConfig] is the global script. *)
Record Config : Type := {
  Embedded : ScriptConfig;
  Test : option ScriptConfig;
  Spawn : option ScriptConfig
}.

(** [cli.Context], as far as the actions use it: [flag c name] is
    [c.String(name)]. *)
Record Context : Type := { flag : string -> string }.

(** What [readConfig] asks of the outside world: the result of
    [os.Open(path)], the text [err.Error()] of an error, and what
    [dec.Decode(&cfg)] makes of the file at [path]: the value it leaves in
    [cfg], which starts zeroed, and its error. *)
Record Files : Type := {
  os_Open : string -> option error;
  Error : error -> string;
  Decode : string -> Config * option error
}.

(** What an action does to the outside world: it opens and closes the
    configuration file, and it does what [Start] does. *)
Inductive io_event : Type :=
| Opened (path : string)
| Closed (path : string)
| Node (e : event).

(** An action can crash on a panic of [Start], or on a [nil] pointer. *)
Inductive crash : Type :=
| NilDereference
| Panicked (p : panic).

Inductive io_outcome (A : Type) : Type :=
| Done (a : A)
| Crashes (c : crash).

Arguments Done {A} a.
Arguments Crashes {A} c.

Definition IO (A : Type) : Type := (io_outcome A * list io_event)%type.

Definition io_ret {A : Type} (a : A) : IO A := (Done a, []).

Definition io_bind {A B : Type} (m : IO A) (f : A -> IO B) : IO B :=
  match m with
  | (Done a, t1) => let (r, t2) := f a in (r, (t1 ++ t2)%list)
  | (Crashes c, t1) => (Crashes c, t1)
  end.

Definition io_emit (e : io_event) : IO unit := (Done tt, [e]).

(** A computation of [Start], run inside an action. *)
Definition run {A : Type} (m : M A) : IO A :=
  (match fst m with
   | Returns a => Done a
   | Panics p => Crashes (Panicked p)
   end,
   map Node (snd m)).

(** [*p] on a pointer. *)
Definition deref {A : Type} (p : option A) : IO A :=
  match p with
  | Some a => io_ret a
  | None => (Crashes NilDereference, [])
  end.

Declare Scope io_scope.
Delimit Scope io_scope with io.
Notation "x <- c1 ;; c2" := (io_bind c1 (fun x => c2))
  (at level 61, c1 at next level, right associativity) : io_scope.
Notation "c1 ;; c2" := (io_bind c1 (fun _ => c2))
  (at level 61, right associativity) : io_scope.

(** [errors.New(text)]. *)
Definition errors_New (text : string) : error := ErrOther text.

(** [readConfig] (lines 156-178).  The deferred [file.Close()] runs once
    the operands of the [return] of line 177 are evaluated. *)
Definition readConfig (fs : Files) (c : Context)
  : IO (option Config * option error) :=
  (let path := flag c "config" in
   match os_Open fs path with
   | Some err =>
       if strings.Contains (Error fs err) "no such file or directory"
       then io_ret (None,
              Some (errors_New "no finkles config found in the working directory"))
       else io_ret (None, Some err)
   | None =>
       io_emit (Opened path) ;;
       let (cfg, err) := Decode fs path in
       io_emit (Closed path) ;;
       io_ret (Some cfg, err)
   end)%io.

(** Lines 207-212: the script the [spawn] command runs. *)
Definition spawn_script (cfg : Config) : ScriptConfig :=
  match Spawn cfg with
  | Some script =>
      match Nodes script with
      | Some _ => script
      | None => Embedded cfg
      end
  | None => Embedded cfg
  end.

(** The action of the [spawn] command (lines 197-221). *)
Definition spawn_action (fs : Files) (env : Env) (c : Context)
  : IO (option error) :=
  (r <- readConfig fs c ;;
   match snd r with
   | Some err => io_ret (Some err)
   | None =>
       cfg <- deref (fst r) ;;
       let script := spawn_script cfg in
       r' <- run (Start script env) ;;
       match snd r' with
       | Some err => io_ret (Some err)
       | None => io_ret None
       end
   end)%io.

(** The action of the [test] command (lines 227-239). *)
Definition test_action (fs : Files) (c : Context) : IO (option error) :=
  (r <- readConfig fs c ;;
   match snd r with
   | Some err => io_ret (Some err)
   | None =>
       cfg <- deref (fst r) ;;
       match Test cfg with
       | None =>
           io_ret (Some (errors_New
             "configuration file does not contain script: 'test'"))
       | Some _ => io_ret None
       end
   end)%io.

(** ** Vocabulary of the properties *)

(** [sub] occurs in [s] at byte offset [k]. *)
Definition occurs_at (sub s : string) (k : nat) : Prop :=
  exists pre post, s = pre ++ sub ++ post /\ String.length pre = k.

(** [sub] does not occur in [s]. *)
Definition absent (sub s : string) : Prop :=
  forall k, ~ occurs_at sub s k.

(** The first occurrence of [sub] in [s] has [pre] before it and [post]
    after it. *)
Definition first_at (sub s pre post : string) : Prop :=
  s = pre ++ sub ++ post /\
  forall k, k < String.length pre -> ~ occurs_at sub s k.

(** [t] is [s] up to the first occurrence of [sep], all of [s] when there is
    none. *)
Definition upto (sep s t : string) : Prop :=
  (exists post, first_at sep s t post) \/ (absent sep s /\ t = s).

(** The two markers of the address rule and the one of the peer-ID rule. *)
Definition peer_marker : string := "peer ID: ".
Definition addr_marker : string := "Assigned to new address; listening on ".
Definition now_marker : string := " now".

(** Line 135, commented out in the source, is the one reader of
    [bootstrapNode]: it passes [bootstrapNode[0]] as the bootstrap peer ID
    and [bootstrapNode[1]] as the bootstrap peer address. *)
Definition bootstrap_peer_id (bootstrapNode : list string) : outcome string :=
  at_index bootstrapNode 0.

Definition bootstrap_peer_addr (bootstrapNode : list string) : outcome string :=
  at_index bootstrapNode 1.

(** The value of [bootstrapNode] when the loop of lines 102-131 stops on a
    stream of the given lines: at the first line that brings it to two
    entries, else at the end of the stream. *)
Fixpoint facts_after (lines : list string) (bootstrapNode : list string)
  : outcome (list string) :=
  match lines with
  | [] => Returns bootstrapNode
  | line :: rest =>
      match scan_line line bootstrapNode with
      | Returns bn =>
          if (2 <=? List.length bn)%nat then Returns bn else facts_after rest bn
      | Panics p => Panics p
      end
  end.

(** The error of the install step of lines 59-71, [None] when the step is
    skipped or succeeds. *)
Definition install_result (env : Env) : option error :=
  if must_install env
  then Run env (exec_Command "cargo" ["install"; "--path"; "."])
  else None.

(** The events of the install step. *)
Definition install_events (env : Env) : list event :=
  if must_install env
  then [Logged "Installing SMCd" None;
        Ran (exec_Command "cargo" ["install"; "--path"; "."])]
  else [].

Definition result {A : Type} (m : M A) : outcome A := fst m.
Definition events {A : Type} (m : M A) : list event := snd m.

Definition is_started (e : event) : bool :=
  match e with Started _ _ => true | _ => false end.

Definition is_read (e : event) : bool :=
  match e with ReadLine _ => true | _ => false end.

(** The child processes started, and the lines asked for, in a run. *)
Definition started (t : list event) : list event := filter is_started t.
Definition reads (t : list event) : list event := filter is_read t.

(** The number of [reader.ReadLine()] calls the loop of lines 102-131 makes
    on a stream of the given lines, the failing call at the end of the
    stream included. *)
Fixpoint lines_read (lines : list string) (bootstrapNode : list string) : nat :=
  match lines with
  | [] => 1
  | line :: rest =>
      match scan_line line bootstrapNode with
      | Returns bn =>
          if (2 <=? List.length bn)%nat then 1 else S (lines_read rest bn)
      | Panics _ => 1
      end
  end.

(** What [Start] returns for the result of the spawn loop. *)
Definition Start_returns (r : outcome (error + list string))
  : outcome (option State * option error) :=
  match r with
  | Returns (inl err) => Returns (None, Some err)
  | Returns (inr _) => Returns (Some {| Workers := [] |}, None)
  | Panics p => Panics p
  end.

Definition smcd : Cmd := exec_Command "smcd" ["-n"].

Definition spawning (n : N) : event :=
  Logged "Spawning a swarm of SummerCash nodes" (Some n).

Definition starting : event :=
  Logged "Starting a bootstrap node for the swarm" None.

(** A line that only the peer-ID rule reads, and yields [id]. *)
Definition peer_id_line (line id : string) : Prop :=
  strings.Contains line "peer ID" = true /\
  strings.Contains line "Assigned to new address" = false /\
  peer_id_of line = Returns id.

(** A line that only the address rule reads, and yields [addr]. *)
Definition address_line (line addr : string) : Prop :=
  strings.Contains line "peer ID" = false /\
  strings.Contains line "Assigned to new address" = true /\
  address_of line = Returns addr.

(** Where a run of [Start] can come to return an error. *)
Inductive stage : Type :=
| AtInstall (* line 69: cargo install failed *)
| AtPipe    (* line 91: cmd.StderrPipe() failed *)
| AtLaunch  (* line 99: cmd.Start() failed *)
| AtRead    (* line 105: reader.ReadLine() failed, at the end of the
               stream or on a read error *).

(** [fails n env stage err]: in the environment [env], a run of [Start] on
    [n] nodes comes to [stage] and meets the error [err] there. *)
Inductive fails (n : N) (env : Env) : stage -> error -> Prop :=
| fails_install (err : error) :
    install_result env = Some err ->
    fails n env AtInstall err
| fails_pipe (err : error) :
    install_result env = None -> n <> 0%N ->
    pipe_err (child env 0) = Some err ->
    fails n env AtPipe err
| fails_launch (err : error) :
    install_result env = None -> n <> 0%N ->
    pipe_err (child env 0) = None ->
    start_err (child env 0) = Some err ->
    fails n env AtLaunch err
| fails_read (bn : list string) :
    install_result env = None -> n <> 0%N ->
    pipe_err (child env 0) = None ->
    start_err (child env 0) = None ->
    facts_after (stderr_lines (child env 0)) [] = Returns bn ->
    List.length bn < 2 ->
    fails n env AtRead (stderr_end (child env 0)).

(** ** Inputs of the examples *)

Definition config (nodes : option Nodes.t) : ScriptConfig :=
  {| Nodes := nodes; DataDir := None; Steps := None |}.

Definition nodes_n (n : N) : Nodes.t :=
  {| Nodes.N := n; Nodes.Args := None; Nodes.Callback := None |}.

(** A child that starts and logs the given lines. *)
Definition logging (lines : list string) (end_err : error) : Proc :=
  {| pipe_err := None; start_err := None;
     stderr_lines := lines; stderr_end := end_err |}.

(** A child that [cmd.Start()] cannot start. *)
Definition unstartable (err : error) : Proc :=
  {| pipe_err := None; start_err := Some err;
     stderr_lines := []; stderr_end := io_EOF |}.

(** [smcd] is on the path and there is no [cargo.toml]: nothing to
    install. *)
Definition installed (p : Proc) : Env :=
  {| os_Stat := fun _ => Some ErrNotExist;
     exec_LookPath := fun _ => None;
     Run := fun _ => None;
     child := fun _ => p |}.

(** [smcd] is not on the path and [cargo install] ends with [err]. *)
Definition not_installed (err : option error) (p : Proc) : Env :=
  {| os_Stat := fun _ => Some ErrNotExist;
     exec_LookPath := fun _ => Some (ErrOther "executable file not found in $PATH");
     Run := fun _ => err;
     child := fun _ => p |}.

Definition peer_line : string := "INFO peer ID: QmAbc123".

Definition addr_line : string :=
  "INFO Assigned to new address; listening on /ip4/127.0.0.1/tcp/4001 now active".

Definition addr_line' : string :=
  "INFO Assigned to new address; listening on /ip6/::1/tcp/4002 now active".

Definition peer_line' : string := "INFO peer ID: QmXyz789".

(** ** Vocabulary of the further properties *)

(** The node count the [spawn] command works on. *)
Definition spawn_count (cfg : Config) : N :=
  match Spawn cfg with
  | Some {| Nodes := Some nodes |} => Nodes.N nodes
  | _ =>
      match Nodes (Embedded cfg) with
      | Some nodes => Nodes.N nodes
      | None => DefaultNumNodes
      end
  end.

Definition is_node (e : io_event) : bool :=
  match e with Node _ => true | _ => false end.

(** A line that neither rule reads. *)
Definition plain_line (line : string) : Prop :=
  strings.Contains line "peer ID" = false /\
  strings.Contains line "Assigned to new address" = false.

(** The lines on which lines 115-124 panic, given the facts stored so
    far. *)
Definition panics_on (line : string) (bootstrapNode : list string) : Prop :=
  (strings.Contains line "peer ID" = true /\
   strings.Contains line "peer ID: " = false) \/
  (strings.Contains line "Assigned to new address" = true /\
   strings.Contains line "Assigned to new address; listening on " = false /\
   List.length bootstrapNode +
     (if strings.Contains line "peer ID" then 1 else 0) < 2).

(** The bootstrap node gets started and its log gets read: nothing to
    install or a successful install, a node count above zero, a pipe and a
    start without error. *)
Definition reaches_log (n : N) (env : Env) : Prop :=
  install_result env = None /\ n <> 0%N /\
  pipe_err (child env 0) = None /\ start_err (child env 0) = None.

(** Example inputs for the command line. *)
Definition config_flag (path : string) : Context :=
  {| flag := fun name => if String.eqb name "config" then path else "" |}.

(** No file can be opened: [os.Open] ends with [err], whose text is
    [text]. *)
Definition unreadable (err : error) (text : string) : Files :=
  {| os_Open := fun _ => Some err;
     Error := fun _ => text;
     Decode := fun _ =>
       ({| Embedded := config None; Test := None; Spawn := None |}, None) |}.

(** Every file opens, and decodes to [cfg] with the error [err]. *)
Definition readable (cfg : Config) (err : option error) : Files :=
  {| os_Open := fun _ => None;
     Error := fun _ => "";
     Decode := fun _ => (cfg, err) |}.

Definition both_line : string :=
  "INFO peer ID: QmAbc123 Assigned to new address; listening on /ip4/a now".

(** ** Facts about [strings] *)

Module strings_facts.
Import strings.

Lemma append_assoc (a b c : string) : (a ++ b) ++ c = a ++ b ++ c.
Proof. induction a as [|x a IH]; simpl; [reflexivity | now rewrite IH]. Qed.

Lemma length_append (a b : string) :
  String.length (a ++ b) = String.length a + String.length b.
Proof. induction a as [|x a IH]; simpl; [reflexivity | now rewrite IH]. Qed.

Lemma slice_to_app (pre x : string) : slice_to (pre ++ x) (String.length pre) = pre.
Proof. induction pre as [|c pre IH]; simpl; [now destruct x | now rewrite IH]. Qed.

Lemma slice_from_app (pre x : string) :
  slice_from (pre ++ x) (String.length pre) = x.
Proof. induction pre as [|c pre IH]; simpl; [now destruct x | exact IH]. Qed.

Lemma slice_to_from (s : string) (n : nat) : slice_to s n ++ slice_from s n = s.
Proof.
  revert s; induction n as [|n IH]; intros [|c s]; simpl; try reflexivity.
  now rewrite IH.
Qed.

Lemma length_slice_to (s : string) (n : nat) :
  n <= String.length s -> String.length (slice_to s n) = n.
Proof.
  revert s; induction n as [|n IH]; intros [|c s]; simpl; intros H; try lia.
  rewrite IH; lia.
Qed.

Lemma length_slice_from (s : string) (n : nat) :
  String.length (slice_from s n) = String.length s - n.
Proof.
  revert s; induction n as [|n IH]; intros [|c s]; simpl; try lia.
  apply IH.
Qed.

Lemma slice_from_add (s : string) (n m : nat) :
  slice_from s (n + m) = slice_from (slice_from s n) m.
Proof.
  revert s; induction n as [|n IH]; intros [|c s]; simpl; try reflexivity.
  - now destruct m.
  - apply IH.
Qed.

Lemma HasPrefix_app (p post : string) : HasPrefix (p ++ post) p = true.
Proof.
  induction p as [|c p IH]; simpl; [now destruct post|].
  now rewrite Ascii.eqb_refl, IH.
Qed.

Lemma HasPrefix_inv (s p : string) :
  HasPrefix s p = true -> s = p ++ slice_from s (String.length p).
Proof.
  revert s; induction p as [|c p IH]; intros [|x s]; simpl; intros H;
    try reflexivity; try discriminate.
  apply andb_prop in H as [Hc Hp].
  apply Ascii.eqb_eq in Hc; subst x.
  now rewrite <- (IH s Hp).
Qed.

Lemma Index_eq (s sub : string) :
  Index s sub =
  if HasPrefix s sub then Some 0
  else match s with
       | EmptyString => None
       | String _ s' => option_map S (Index s' sub)
       end.
Proof. destruct s; reflexivity. Qed.

Lemma occurs_at_0 (sub s : string) :
  occurs_at sub s 0 <-> HasPrefix s sub = true.
Proof.
  split.
  - intros (pre & post & -> & Hlen).
    destruct pre; [|discriminate]. simpl. apply HasPrefix_app.
  - intros H. exists EmptyString, (slice_from s (String.length sub)).
    split; [|reflexivity]. simpl. now apply HasPrefix_inv.
Qed.

Lemma occurs_at_S (sub : string) (c : ascii) (s : string) (k : nat) :
  occurs_at sub (String c s) (S k) <-> occurs_at sub s k.
Proof.
  split.
  - intros (pre & post & E & Hlen).
    destruct pre as [|x pre]; [discriminate|].
    simpl in E, Hlen. injection E as _ E. injection Hlen as Hlen.
    now exists pre, post.
  - intros (pre & post & -> & Hlen).
    exists (String c pre), post. simpl. now rewrite Hlen.
Qed.

Lemma occurs_at_empty (sub : string) (k : nat) :
  sub <> EmptyString -> ~ occurs_at sub EmptyString k.
Proof.
  intros Hsub (pre & post & E & _).
  destruct pre; simpl in E; [|discriminate].
  destruct sub; [now apply Hsub | discriminate].
Qed.

Lemma occurs_at_bound (sub s : string) (k : nat) :
  occurs_at sub s k -> k + String.length sub <= String.length s.
Proof.
  intros (pre & post & -> & <-). rewrite !length_append. lia.
Qed.

Lemma occurs_at_slices (sub s : string) (k : nat) :
  occurs_at sub s k ->
  s = slice_to s k ++ sub ++ slice_from s (k + String.length sub) /\
  String.length (slice_to s k) = k.
Proof.
  intros (pre & post & -> & <-).
  rewrite slice_to_app, slice_from_add, slice_from_app, slice_from_app.
  split; reflexivity.
Qed.

Lemma Index_Some (s sub : string) (m : nat) :
  Index s sub = Some m ->
  occurs_at sub s m /\ forall k, k < m -> ~ occurs_at sub s k.
Proof.
  revert m; induction s as [|c s IH]; intros m; rewrite Index_eq;
    destruct (HasPrefix _ sub) eqn:Hp; intros H; try discriminate.
  - injection H as <-. split; [now apply occurs_at_0 | intros k Hk; lia].
  - injection H as <-. split; [now apply occurs_at_0 | intros k Hk; lia].
  - destruct (Index s sub) as [m'|] eqn:Hi; [|discriminate].
    injection H as <-. destruct (IH m' eq_refl) as [Hocc Hfirst].
    split; [now apply occurs_at_S|].
    intros [|k] Hk Habs.
    + apply occurs_at_0 in Habs. congruence.
    + apply occurs_at_S in Habs. apply (Hfirst k); [lia | exact Habs].
Qed.

Lemma Index_None (s sub : string) : Index s sub = None -> absent sub s.
Proof.
  induction s as [|c s IH]; rewrite Index_eq;
    destruct (HasPrefix _ sub) eqn:Hp; intros H; try discriminate.
  - intros k (pre & post & E & _).
    destruct pre; simpl in E; [|discriminate].
    destruct sub; [discriminate Hp | discriminate E].
  - destruct (Index s sub) as [m'|] eqn:Hi; [discriminate|].
    intros [|k] Habs.
    + apply occurs_at_0 in Habs. congruence.
    + apply occurs_at_S in Habs. now apply (IH eq_refl k).
Qed.

Lemma Index_first (s sub : string) (m : nat) :
  occurs_at sub s m -> (forall k, k < m -> ~ occurs_at sub s k) ->
  Index s sub = Some m.
Proof.
  intros Hocc Hfirst.
  destruct (Index s sub) as [m'|] eqn:Hi.
  - apply Index_Some in Hi as [Hocc' Hfirst'].
    destruct (Nat.lt_trichotomy m m') as [Hlt|[->|Hlt]].
    + now elim (Hfirst' m Hlt).
    + reflexivity.
    + now elim (Hfirst m' Hlt).
  - now elim (Index_None _ _ Hi m).
Qed.

Lemma Contains_true (s sub : string) :
  Contains s sub = true <-> exists k, occurs_at sub s k.
Proof.
  unfold Contains. destruct (Index s sub) as [m|] eqn:Hi; split; intros H.
  - exists m. now apply Index_Some in Hi.
  - reflexivity.
  - discriminate.
  - destruct H as [k Hk]. now elim (Index_None _ _ Hi k).
Qed.

Lemma Contains_false (s sub : string) :
  Contains s sub = false <-> absent sub s.
Proof.
  split; intros H.
  - unfold Contains in H. destruct (Index s sub) eqn:Hi; [discriminate|].
    now apply Index_None.
  - destruct (Contains s sub) eqn:Hc; [|reflexivity].
    apply Contains_true in Hc as [k Hk]. now elim (H k).
Qed.

(** The first occurrence, as [Index] and the two slices of [genSplit] see
    it. *)
Lemma first_at_Index (sub s pre post : string) :
  first_at sub s pre post ->
  Index s sub = Some (String.length pre) /\
  slice_to s (String.length pre) = pre /\
  slice_from s (String.length pre + String.length sub) = post.
Proof.
  intros [-> Hfirst]. split; [|split].
  - apply Index_first; [now exists pre, post | exact Hfirst].
  - apply slice_to_app.
  - now rewrite slice_from_add, !slice_from_app.
Qed.

Lemma Index_first_at (sub s : string) (m : nat) :
  Index s sub = Some m ->
  first_at sub s (slice_to s m) (slice_from s (m + String.length sub)).
Proof.
  intros Hi. apply Index_Some in Hi as [Hocc Hfirst].
  destruct (occurs_at_slices _ _ _ Hocc) as [E Hlen].
  split; [exact E | now rewrite Hlen].
Qed.

Lemma Index_upto (sep s : string) :
  upto sep s (match Index s sep with Some m => slice_to s m | None => s end).
Proof.
  destruct (Index s sep) as [m|] eqn:Hi.
  - left. eexists. now apply Index_first_at.
  - right. split; [now apply Index_None | reflexivity].
Qed.

Lemma upto_Index (sep s t : string) :
  upto sep s t ->
  t = match Index s sep with Some m => slice_to s m | None => s end.
Proof.
  intros [[post H]|[Habs ->]].
  - apply first_at_Index in H as (-> & E & _). now rewrite E.
  - apply Contains_false in Habs. unfold Contains in Habs.
    now destruct (Index s sep).
Qed.

(** Enough fuel: past [length s], more fuel changes nothing. *)
Lemma genSplit_fuel (sep : string) (f1 f2 : nat) (s : string) :
  sep <> EmptyString ->
  String.length s <= f1 -> String.length s <= f2 ->
  genSplit f1 s sep = genSplit f2 s sep.
Proof.
  intros Hsep. revert f2 s.
  assert (Hnil : forall f, genSplit f EmptyString sep = [EmptyString]).
  { intros [|f]; simpl; [reflexivity|].
    destruct sep; [now elim Hsep | reflexivity]. }
  induction f1 as [|f1 IH]; intros f2 s H1 H2.
  - destruct s; [|simpl in H1; lia]. now rewrite Hnil.
  - destruct f2 as [|f2].
    + destruct s; [|simpl in H2; lia]. now rewrite !Hnil.
    + simpl. destruct (Index s sep) as [m|] eqn:Hi; [|reflexivity].
      f_equal. apply Index_Some in Hi as [Hocc _].
      apply occurs_at_bound in Hocc.
      assert (0 < String.length sep) by (destruct sep; [now elim Hsep | simpl; lia]).
      apply IH; rewrite length_slice_from; lia.
Qed.

(** [Split] cuts at the first separator and goes on with what follows it:
    the loop of [genSplit], without a bound. *)
Lemma Split_step (s sep : string) :
  sep <> EmptyString ->
  Split s sep =
  match Index s sep with
  | None => [s]
  | Some m => slice_to s m :: Split (slice_from s (m + String.length sep)) sep
  end.
Proof.
  intros Hsep. unfold Split.
  destruct (Index s sep) as [m|] eqn:Hi.
  - pose proof (Index_Some _ _ _ Hi) as [Hocc _].
    apply occurs_at_bound in Hocc.
    assert (0 < String.length sep) by (destruct sep; [now elim Hsep | simpl; lia]).
    destruct (String.length s) as [|n] eqn:Hn; [lia|].
    simpl. rewrite Hi. f_equal.
    apply genSplit_fuel; [exact Hsep | | lia].
    rewrite length_slice_from. lia.
  - destruct (String.length s); simpl; [reflexivity | now rewrite Hi].
Qed.

Lemma Split_head (s sep t : string) :
  sep <> EmptyString -> upto sep s t -> nth_error (Split s sep) 0 = Some t.
Proof.
  intros Hsep Hu. apply upto_Index in Hu as ->.
  rewrite (Split_step s sep Hsep). now destruct (Index s sep).
Qed.

(** [Split(s, sep)[0]]: [s] up to the first separator. *)
Lemma Split_0 (s sep t : string) :
  sep <> EmptyString -> upto sep s t -> at_index (Split s sep) 0 = Returns t.
Proof.
  intros Hsep Hu. unfold at_index. now rewrite (Split_head s sep t).
Qed.

(** [Split(s, sep)[1]]: what lies between the first separator and the
    next. *)
Lemma Split_1 (s sep pre post t : string) :
  sep <> EmptyString -> first_at sep s pre post -> upto sep post t ->
  at_index (Split s sep) 1 = Returns t.
Proof.
  intros Hsep Hf Hu.
  apply first_at_Index in Hf as (Hi & _ & Hpost).
  rewrite (Split_step s sep Hsep), Hi, Hpost.
  pose proof (Split_head post sep t Hsep Hu) as Hh.
  unfold at_index. cbn [nth_error] in *.
  now destruct (Split post sep); [discriminate|injection Hh as ->].
Qed.

(** [Split(s, sep)[1]] on a string without separator: out of range. *)
Lemma Split_1_absent (s sep : string) :
  sep <> EmptyString -> absent sep s ->
  at_index (Split s sep) 1 = Panics (IndexOutOfRange 1 1).
Proof.
  intros Hsep Habs. apply Contains_false in Habs. unfold Contains in Habs.
  rewrite (Split_step s sep Hsep).
  now destruct (Index s sep).
Qed.

End strings_facts.

(** ** Facts about the launcher *)

Arguments scan_line : simpl never.

Lemma bind_ret {A B : Type} (a : A) (f : A -> M B) : bind (ret a) f = f a.
Proof. unfold bind, ret. now destruct (f a). Qed.

Lemma bind_emit {B : Type} (e : event) (f : unit -> M B) :
  bind (emit e) f = (fst (f tt), e :: snd (f tt)).
Proof. unfold bind, emit. now destruct (f tt). Qed.

Lemma leb_2_false (n : nat) : (2 <=? n)%nat = false <-> n < 2.
Proof. apply Nat.leb_gt. Qed.

(** The loop of lines 102-131, one line at a time. *)
Lemma read_loop_cons (i : N) (line : string) (rest : list string) (e : error)
  (bn : list string) :
  read_loop i (line :: rest) e bn =
  match scan_line line bn with
  | Returns bn' =>
      if (2 <=? List.length bn')%nat then (Returns (inr bn'), [ReadLine i])
      else (fst (read_loop i rest e bn'), ReadLine i :: snd (read_loop i rest e bn'))
  | Panics p => (Panics p, [ReadLine i])
  end.
Proof.
  cbn [read_loop]. rewrite bind_emit. unfold lift, bind.
  destruct (scan_line line bn) as [bn'|p]; [|reflexivity].
  destruct (2 <=? List.length bn')%nat; [reflexivity|].
  now destruct (read_loop i rest e bn').
Qed.

(** The loop of lines 102-131 as a whole: its result is read off
    [facts_after], its reads are counted by [lines_read]. *)
Lemma read_loop_facts (i : N) (lines : list string) (e : error) (bn : list string) :
  List.length bn < 2 ->
  read_loop i lines e bn =
  (match facts_after lines bn with
   | Returns bn' =>
       if (2 <=? List.length bn')%nat then Returns (inr bn') else Returns (inl e)
   | Panics p => Panics p
   end,
   repeat (ReadLine i) (lines_read lines bn)).
Proof.
  revert bn; induction lines as [|line rest IH]; intros bn Hbn.
  - apply leb_2_false in Hbn.
    cbn [read_loop facts_after lines_read repeat]. rewrite bind_emit.
    now rewrite Hbn.
  - rewrite read_loop_cons. cbn [facts_after lines_read].
    destruct (scan_line line bn) as [bn'|p]; [|reflexivity].
    destruct (2 <=? List.length bn')%nat eqn:Hlen; [now rewrite Hlen|].
    rewrite (IH bn') by now apply leb_2_false. reflexivity.
Qed.

(** A loop that breaks has two entries at least in [bootstrapNode]. *)
Lemma read_loop_break (i : N) (lines : list string) (e : error)
  (bn bn' : list string) (t : list event) :
  read_loop i lines e bn = (Returns (inr bn'), t) -> 2 <= List.length bn'.
Proof.
  revert bn t; induction lines as [|line rest IH]; intros bn t.
  - cbn. discriminate.
  - rewrite read_loop_cons.
    destruct (scan_line line bn) as [bn1|p]; [|discriminate].
    destruct (2 <=? List.length bn1)%nat eqn:Hlen.
    + intros [= <- _]. now apply Nat.leb_le.
    + destruct (read_loop i rest e bn1) as [r t'] eqn:Hr. cbn.
      intros [= -> _]. now apply (IH _ _ Hr).
Qed.

(** Lines 83-131, case by case. *)
Lemma bootstrap_eq (env : Env) (i : N) (bn : list string) :
  bootstrap env i bn =
  match pipe_err (child env i), start_err (child env i) with
  | Some err, _ => (Returns (inl err), [starting])
  | None, Some err => (Returns (inl err), [starting])
  | None, None =>
      let r := read_loop i (stderr_lines (child env i))
                 (stderr_end (child env i)) bn in
      (fst r, starting :: Started i smcd :: snd r)
  end.
Proof.
  unfold bootstrap. rewrite bind_emit.
  destruct (pipe_err (child env i)); [reflexivity|].
  destruct (start_err (child env i)); [reflexivity|].
  rewrite bind_emit. reflexivity.
Qed.

Lemma bootstrap_break (env : Env) (i : N) (bn bn' : list string) (t : list event) :
  bootstrap env i bn = (Returns (inr bn'), t) -> 2 <= List.length bn'.
Proof.
  rewrite bootstrap_eq.
  destruct (pipe_err (child env i)); [discriminate|].
  destruct (start_err (child env i)); [discriminate|].
  destruct (read_loop _ _ _ _) as [r t'] eqn:Hr. cbn.
  intros [= -> _]. now apply (read_loop_break _ _ _ _ _ _ Hr).
Qed.

(** Once [bootstrapNode] is set, the remaining iterations do nothing. *)
Lemma spawn_loop_set (env : Env) (k : nat) (i : N) (bn : list string) :
  bn <> [] -> spawn_loop env k i bn = (Returns (inr bn), []).
Proof.
  intros Hbn. revert i; induction k as [|k IH]; intros i; [reflexivity|].
  cbn [spawn_loop]. destruct bn as [|x bn]; [now elim Hbn|].
  rewrite bind_ret. apply IH.
Qed.

(** The first iteration does all the work of the loop. *)
Lemma spawn_loop_unset (env : Env) (k : nat) (i : N) :
  spawn_loop env (S k) i [] = bootstrap env i [].
Proof.
  cbn [spawn_loop]. unfold bind.
  destruct (bootstrap env i []) as [[[err|bn]|p] t] eqn:Hb.
  - cbn. now rewrite app_nil_r.
  - apply bootstrap_break in Hb.
    rewrite spawn_loop_set by (destruct bn; [cbn in Hb; lia | discriminate]).
    now rewrite app_nil_r.
  - reflexivity.
Qed.

Lemma install_eq (env : Env) :
  install env = (Returns (install_result env), install_events env).
Proof.
  unfold install, install_result, install_events.
  destruct (must_install env); reflexivity.
Qed.

(** [Start] on [n] nodes, case by case. *)
Lemma spawn_eq (n : N) (env : Env) :
  spawn n env =
  match install_result env with
  | Some err => (Returns (None, Some err), install_events env)
  | None =>
      if (n =? 0)%N
      then (Returns (Some {| Workers := [] |}, None),
            (install_events env ++ [spawning n])%list)
      else (Start_returns (fst (bootstrap env 0 [])),
            (install_events env ++ spawning n :: snd (bootstrap env 0 []))%list)
  end.
Proof.
  unfold spawn. rewrite install_eq. unfold bind at 1.
  destruct (install_result env) as [err|].
  - cbn. now rewrite app_nil_r.
  - rewrite bind_emit.
    destruct (N.eqb_spec n 0) as [->|Hn].
    + reflexivity.
    + destruct (N.to_nat n) as [|k] eqn:Hk; [lia|].
      rewrite spawn_loop_unset. unfold bind.
      destruct (bootstrap env 0 []) as [[[err|bn]|p] t]; cbn;
        now rewrite ?app_nil_r.
Qed.

(** Every line asked for is a read, never a start. *)
Lemma started_reads (i : N) (k : nat) : started (repeat (ReadLine i) k) = [].
Proof. induction k as [|k IH]; [reflexivity | exact IH]. Qed.

Lemma started_install (env : Env) : started (install_events env) = [].
Proof. unfold install_events. now destruct (must_install env). Qed.

Lemma reads_install (env : Env) : reads (install_events env) = [].
Proof. unfold install_events. now destruct (must_install env). Qed.

(** The children a bootstrap step starts: one, unless the pipe or the start
    fails. *)
Lemma started_bootstrap (env : Env) (i : N) :
  started (snd (bootstrap env i [])) =
  match pipe_err (child env i), start_err (child env i) with
  | None, None => [Started i smcd]
  | _, _ => []
  end.
Proof.
  rewrite bootstrap_eq.
  destruct (pipe_err (child env i)); [reflexivity|].
  destruct (start_err (child env i)); [reflexivity|].
  rewrite read_loop_facts by (cbn; lia). cbn.
  now rewrite started_reads.
Qed.

(** Whatever the node count and the environment, [Start] starts one child
    at most. *)
Lemma Start_starts_at_most_one (cfg : ScriptConfig) (env : Env) :
  List.length (started (events (Start cfg env))) <= 1.
Proof.
  unfold Start, events. rewrite spawn_eq.
  destruct (install_result env).
  - cbn [snd]. rewrite started_install. cbn. lia.
  - destruct (num_nodes cfg =? 0)%N; cbn [snd]; unfold started;
      rewrite filter_app; fold (started (install_events env));
      rewrite started_install.
    + cbn. lia.
    + cbn [filter is_started spawning app].
      fold (started (snd (bootstrap env 0 []))). rewrite started_bootstrap.
      destruct (pipe_err (child env 0)), (start_err (child env 0)); cbn; lia.
Qed.

(** Whatever the node count and the environment, the state [Start] returns
    holds no worker. *)
Lemma Start_no_workers (cfg : ScriptConfig) (env : Env) (st : State)
  (err : option error) :
  result (Start cfg env) = Returns (Some st, err) -> Workers st = [].
Proof.
  unfold Start, result. rewrite spawn_eq.
  destruct (install_result env); [discriminate|].
  destruct (num_nodes cfg =? 0)%N; cbn [fst].
  - now intros [= <- _].
  - destruct (fst (bootstrap env 0 [])) as [[e|bn]|p]; cbn;
      try discriminate. now intros [= <- _].
Qed.

(** ** The claims *)

(** C1 (as the code has it).  On a configuration of five nodes [Start]
    starts one process at most, whatever the environment, and a state it
    returns holds no worker.  With [smcd] installed and a bootstrap node
    that logs its peer ID and its address, it starts the bootstrap node,
    reads its two lines and returns the empty state: the four peers are
    not launched and the bootstrap node is not recorded. *)
Theorem Start_five_nodes (env : Env) :
  let cfg := config (Some (nodes_n 5)) in
  (List.length (started (events (Start cfg env))) <= 1 /\
   match result (Start cfg env) with
   | Returns (Some st, _) => Workers st = []
   | _ => True
   end) /\
  Start cfg (installed (logging [peer_line; addr_line; "INFO ready"] io_EOF)) =
  (Returns (Some {| Workers := [] |}, None),
   [spawning 5; starting; Started 0 smcd; ReadLine 0; ReadLine 0]).
Proof.
  intros cfg. split; [split|reflexivity].
  - apply Start_starts_at_most_one.
  - destruct (result (Start cfg env)) as [[[st|] err]|p] eqn:Hr; [|exact I..].
    exact (Start_no_workers cfg env st err Hr).
Qed.

(** C2 (as the code has it).  Fact extraction is not total: a line with
    [peer ID] but without [peer ID: ], and a line with [Assigned to new
    address] but without the full marker (read while fewer than two facts
    are stored), make line 116 or line 123 index a one-element slice at 1,
    and the program panics. *)
Theorem scan_line_panics (line : string) (bn : list string) :
  (strings.Contains line "peer ID" = true /\
   strings.Contains line peer_marker = false) \/
  (strings.Contains line "peer ID" = false /\
   strings.Contains line "Assigned to new address" = true /\
   strings.Contains line addr_marker = false /\
   List.length bn < 2) ->
  scan_line line bn = Panics (IndexOutOfRange 1 1).
Proof.
  unfold scan_line, peer_id_rule, address_rule, peer_id_of, address_of.
  unfold peer_marker, addr_marker.
  intros [[Hc Hm]|(Hc & Ha & Hm & Hlen)]; rewrite Hc.
  - apply strings_facts.Contains_false in Hm.
    now rewrite strings_facts.Split_1_absent.
  - rewrite Ha. apply Nat.ltb_lt in Hlen. rewrite Hlen. cbn [andb].
    apply strings_facts.Contains_false in Hm.
    now rewrite strings_facts.Split_1_absent.
Qed.

Lemma scan_line_panics_witness :
  scan_line "peer ID" [] = Panics (IndexOutOfRange 1 1) /\
  scan_line "Assigned to new address" ["QmAbc123"] = Panics (IndexOutOfRange 1 1).
Proof.
  split.
  - apply scan_line_panics. left. split; reflexivity.
  - apply scan_line_panics. right. repeat split; try reflexivity. cbn. lia.
Defined.

(** The panic reaches the caller of [Start]. *)
Example Start_panics :
  Start (config None) (installed (logging ["peer ID"] io_EOF)) =
  (Panics (IndexOutOfRange 1 1),
   [spawning 8; starting; Started 0 smcd; ReadLine 0]).
Proof. reflexivity. Qed.

Lemma scan_peer_id_line (line id : string) (bn : list string) :
  peer_id_line line id -> scan_line line bn = Returns (bn ++ [id])%list.
Proof.
  intros (Hp & Ha & Hid).
  unfold scan_line, peer_id_rule, address_rule. now rewrite Hp, Hid, Ha.
Qed.

Lemma scan_address_line (line addr : string) (bn : list string) :
  address_line line addr -> List.length bn < 2 ->
  scan_line line bn = Returns (bn ++ [addr])%list.
Proof.
  intros (Hp & Ha & Haddr) Hlen. apply Nat.ltb_lt in Hlen.
  unfold scan_line, peer_id_rule, address_rule. now rewrite Hp, Ha, Hlen, Haddr.
Qed.

(** C3 (as the code has it).  One peer-ID line and one address line, in
    either order, end discovery after two reads, whatever follows in the
    stream.  The facts are stored in the order of arrival: with the peer-ID
    line first, [bootstrapNode[0]] is the peer ID and [bootstrapNode[1]] the
    address, as line 135 reads them; with the address line first the two
    are swapped, and the slot of the peer ID holds the address. *)
Theorem discovery_order (i : N) (lp la id addr : string) (rest : list string)
  (e : error) :
  peer_id_line lp id -> address_line la addr ->
  (read_loop i (lp :: la :: rest) e [] =
     (Returns (inr [id; addr]), [ReadLine i; ReadLine i]) /\
   bootstrap_peer_id [id; addr] = Returns id /\
   bootstrap_peer_addr [id; addr] = Returns addr) /\
  (read_loop i (la :: lp :: rest) e [] =
     (Returns (inr [addr; id]), [ReadLine i; ReadLine i]) /\
   bootstrap_peer_id [addr; id] = Returns addr /\
   bootstrap_peer_addr [addr; id] = Returns id).
Proof.
  intros Hp Ha. split; (split; [|split; reflexivity]).
  - rewrite read_loop_cons, (scan_peer_id_line lp id) by exact Hp. cbn [app List.length Nat.leb].
    rewrite read_loop_cons, (scan_address_line la addr) by (try exact Ha; cbn; lia).
    reflexivity.
  - rewrite read_loop_cons, (scan_address_line la addr) by (try exact Ha; cbn; lia).
    cbn [app List.length Nat.leb].
    rewrite read_loop_cons, (scan_peer_id_line lp id) by exact Hp.
    reflexivity.
Qed.

Lemma discovery_order_witness :
  read_loop 0 [addr_line; peer_line; "INFO ready"] io_EOF [] =
    (Returns (inr ["/ip4/127.0.0.1/tcp/4001"; "QmAbc123"]),
     [ReadLine 0; ReadLine 0]) /\
  bootstrap_peer_id ["/ip4/127.0.0.1/tcp/4001"; "QmAbc123"] =
    Returns "/ip4/127.0.0.1/tcp/4001".
Proof.
  assert (Hp : peer_id_line peer_line "QmAbc123") by (repeat split; reflexivity).
  assert (Ha : address_line addr_line "/ip4/127.0.0.1/tcp/4001")
    by (repeat split; reflexivity).
  destruct (discovery_order 0 peer_line addr_line _ _ ["INFO ready"] io_EOF Hp Ha)
    as [_ (Hrun & Hid & _)].
  split; [exact Hrun | exact Hid].
Defined.

(** C4 (as the code has it).  A second line of the same kind is not
    ignored while [bootstrapNode] has one entry: two address lines store two
    addresses, two peer-ID lines store two peer IDs, and discovery ends
    there without the other fact.  Only once [bootstrapNode] has two
    entries does nothing change it: the loop has stopped, and [rest] is
    not read. *)
Theorem second_match_stored (i : N) (la1 la2 lp1 lp2 a1 a2 p1 p2 : string)
  (rest : list string) (e : error) :
  address_line la1 a1 -> address_line la2 a2 ->
  peer_id_line lp1 p1 -> peer_id_line lp2 p2 ->
  read_loop i (la1 :: la2 :: rest) e [] =
    (Returns (inr [a1; a2]), [ReadLine i; ReadLine i]) /\
  read_loop i (lp1 :: lp2 :: rest) e [] =
    (Returns (inr [p1; p2]), [ReadLine i; ReadLine i]).
Proof.
  intros Ha1 Ha2 Hp1 Hp2. split.
  - rewrite read_loop_cons, (scan_address_line la1 a1) by (try exact Ha1; cbn; lia).
    cbn [app List.length Nat.leb].
    rewrite read_loop_cons, (scan_address_line la2 a2) by (try exact Ha2; cbn; lia).
    reflexivity.
  - rewrite read_loop_cons, (scan_peer_id_line lp1 p1) by exact Hp1.
    cbn [app List.length Nat.leb].
    rewrite read_loop_cons, (scan_peer_id_line lp2 p2) by exact Hp2.
    reflexivity.
Qed.

Lemma second_match_stored_witness :
  read_loop 0 [addr_line; addr_line'; peer_line] io_EOF [] =
    (Returns (inr ["/ip4/127.0.0.1/tcp/4001"; "/ip6/::1/tcp/4002"]),
     [ReadLine 0; ReadLine 0]) /\
  read_loop 0 [peer_line; peer_line'; addr_line] io_EOF [] =
    (Returns (inr ["QmAbc123"; "QmXyz789"]), [ReadLine 0; ReadLine 0]).
Proof.
  assert (Ha1 : address_line addr_line "/ip4/127.0.0.1/tcp/4001")
    by (repeat split; reflexivity).
  assert (Ha2 : address_line addr_line' "/ip6/::1/tcp/4002")
    by (repeat split; reflexivity).
  assert (Hp1 : peer_id_line peer_line "QmAbc123") by (repeat split; reflexivity).
  assert (Hp2 : peer_id_line peer_line' "QmXyz789") by (repeat split; reflexivity).
  split.
  - exact (proj1 (second_match_stored 0 _ _ _ _ _ _ _ _ [peer_line] io_EOF
                    Ha1 Ha2 Hp1 Hp2)).
  - exact (proj2 (second_match_stored 0 _ _ _ _ _ _ _ _ [addr_line] io_EOF
                    Ha1 Ha2 Hp1 Hp2)).
Defined.

(** The events of a run that gets to read the bootstrap node's log. *)
Lemma bootstrap_reading (env : Env) (i : N) :
  pipe_err (child env i) = None -> start_err (child env i) = None ->
  bootstrap env i [] =
  (match facts_after (stderr_lines (child env i)) [] with
   | Returns bn =>
       if (2 <=? List.length bn)%nat then Returns (inr bn)
       else Returns (inl (stderr_end (child env i)))
   | Panics p => Panics p
   end,
   starting :: Started i smcd ::
     repeat (ReadLine i) (lines_read (stderr_lines (child env i)) [])).
Proof.
  intros Hpipe Hstart. rewrite bootstrap_eq, Hpipe, Hstart.
  now rewrite read_loop_facts by (cbn; lia).
Qed.

(** A stream that ends before two facts are stored is read to its end, and
    once more. *)
Lemma lines_read_all (lines : list string) (bn0 bn : list string) :
  facts_after lines bn0 = Returns bn -> List.length bn < 2 ->
  lines_read lines bn0 = S (List.length lines).
Proof.
  intros Hf Hlen. revert bn0 Hf.
  induction lines as [|line rest IH]; intros bn0;
    cbn [facts_after lines_read List.length]; [reflexivity|].
  destruct (scan_line line bn0) as [bn1|p]; [|discriminate].
  destruct (2 <=? List.length bn1)%nat eqn:H2.
  - intros [= ->]. apply Nat.leb_le in H2. lia.
  - intros Hf. now rewrite (IH bn1 Hf).
Qed.

(** A failure at any stage makes [Start] return its error and no state. *)
Lemma Start_fails (cfg : ScriptConfig) (env : Env) (stg : stage) (err : error) :
  fails (num_nodes cfg) env stg err ->
  Start cfg env =
  (Returns (None, Some err),
   match stg with
   | AtInstall => install_events env
   | AtPipe | AtLaunch =>
       install_events env ++ [spawning (num_nodes cfg); starting]
   | AtRead =>
       install_events env ++
       spawning (num_nodes cfg) :: starting :: Started 0 smcd ::
       repeat (ReadLine 0) (S (List.length (stderr_lines (child env 0))))
   end%list).
Proof.
  unfold Start. rewrite spawn_eq.
  intros [e Hi|e Hi Hn Hp|e Hi Hn Hp Hs|bn Hi Hn Hp Hs Hf Hlen]; rewrite Hi;
    try reflexivity;
    apply N.eqb_neq in Hn; rewrite Hn.
  - now rewrite bootstrap_eq, Hp.
  - now rewrite bootstrap_eq, Hp, Hs.
  - rewrite (bootstrap_reading env 0 Hp Hs), Hf.
    pose proof Hlen as Hlt. apply leb_2_false in Hlt. rewrite Hlt. cbn [fst snd Start_returns].
    now rewrite (lines_read_all _ _ _ Hf Hlen).
Qed.

(** C5 (amended).  When the stream of the bootstrap node stops before two
    facts are stored, [Start] returns, with no state, the very error the
    failing [ReadLine] returned: [io.EOF] at the end of the stream, the
    read error otherwise.  One path serves both; no error of its own is
    made for the end of the stream. *)
Theorem Start_stream_error (cfg : ScriptConfig) (env : Env) (bn : list string) :
  install_result env = None -> num_nodes cfg <> 0%N ->
  pipe_err (child env 0) = None -> start_err (child env 0) = None ->
  facts_after (stderr_lines (child env 0)) [] = Returns bn ->
  List.length bn < 2 ->
  result (Start cfg env) = Returns (None, Some (stderr_end (child env 0))).
Proof.
  intros Hi Hn Hp Hs Hf Hlen. unfold result.
  now rewrite (Start_fails cfg env AtRead _ (fails_read _ _ bn Hi Hn Hp Hs Hf Hlen)).
Qed.

Lemma Start_stream_error_witness :
  result (Start (config None) (installed (logging [peer_line] io_EOF))) =
    Returns (None, Some io_EOF) /\
  result (Start (config None)
            (installed (logging [peer_line] (ErrOther "read |0: file already closed")))) =
    Returns (None, Some (ErrOther "read |0: file already closed")).
Proof.
  split.
  - apply (Start_stream_error (config None)
             (installed (logging [peer_line] io_EOF)) ["QmAbc123"]);
      try reflexivity; [discriminate | cbn; lia].
  - apply (Start_stream_error (config None)
             (installed (logging [peer_line]
                (ErrOther "read |0: file already closed"))) ["QmAbc123"]);
      try reflexivity; [discriminate | cbn; lia].
Defined.

(** C5 (as stated) fails: on a bootstrap node whose log ends after the
    peer-ID line, the error [Start] returns is [io.EOF] itself, the error of
    the stream, and no other. *)
Lemma Start_eof_not_dedicated :
  let env := installed (logging [peer_line] io_EOF) in
  stderr_end (child env 0) = io_EOF /\
  ~ (exists dedicated : error,
       dedicated <> stderr_end (child env 0) /\
       result (Start (config None) env) = Returns (None, Some dedicated)).
Proof.
  split; [reflexivity|].
  intros (d & Hd & Hr). cbn in Hr, Hd. injection Hr as <-. now apply Hd.
Qed.

(** C6.  [Start] either returns a state and no error, or an error and no
    state.  At each stage where it can fail (the install step, the pipe of
    the bootstrap node, its launch, a read of its log before two facts are
    stored, end of stream included) it returns the error of that stage and
    no state; when the pipe or the launch of the bootstrap node fails no
    process has been started, and none is started after a failure. *)
Theorem Start_atomic (cfg : ScriptConfig) (env : Env) (stg : stage) (err : error) :
  fails (num_nodes cfg) env stg err ->
  result (Start cfg env) = Returns (None, Some err) /\
  started (events (Start cfg env)) =
    match stg with AtRead => [Started 0 smcd] | _ => [] end.
Proof.
  intros H. unfold result, events. rewrite (Start_fails cfg env stg err H).
  split; [reflexivity|]. cbn [snd]. unfold started.
  destruct stg; rewrite ?filter_app; fold (started (install_events env));
    rewrite started_install; try reflexivity.
  cbn [filter is_started spawning starting app].
  fold (started (repeat (ReadLine 0)
                   (S (List.length (stderr_lines (child env 0)))))).
  now rewrite started_reads.
Qed.

Lemma Start_atomic_witness :
  let env := installed (unstartable (ErrOther "exec: smcd: permission denied")) in
  result (Start (config (Some (nodes_n 5))) env) =
    Returns (None, Some (ErrOther "exec: smcd: permission denied")) /\
  started (events (Start (config (Some (nodes_n 5))) env)) = [].
Proof.
  intros env.
  apply (Start_atomic (config (Some (nodes_n 5))) env AtLaunch).
  apply fails_launch; [reflexivity | discriminate | reflexivity | reflexivity].
Defined.

(** The stages of [fails] are all there is: every run of [Start] that
    returns gives a state without error, or an error without state that
    comes from one of the stages. *)
Lemma Start_state_or_error (cfg : ScriptConfig) (env : Env)
  (st : option State) (err : option error) :
  result (Start cfg env) = Returns (st, err) ->
  (st = Some {| Workers := [] |} /\ err = None) \/
  (st = None /\ exists stg e, err = Some e /\ fails (num_nodes cfg) env stg e).
Proof.
  unfold Start, result. rewrite spawn_eq.
  destruct (install_result env) as [e|] eqn:Hi.
  - intros [= <- <-]. right. split; [reflexivity|].
    exists AtInstall, e. split; [reflexivity | now constructor].
  - destruct (N.eqb_spec (num_nodes cfg) 0) as [Hn|Hn]; cbn [fst].
    + intros [= <- <-]. now left.
    + rewrite bootstrap_eq.
      destruct (pipe_err (child env 0)) as [e|] eqn:Hp.
      { intros [= <- <-]. right. split; [reflexivity|].
        exists AtPipe, e. split; [reflexivity | now constructor]. }
      destruct (start_err (child env 0)) as [e|] eqn:Hs.
      { intros [= <- <-]. right. split; [reflexivity|].
        exists AtLaunch, e. split; [reflexivity | now constructor]. }
      rewrite read_loop_facts by (cbn; lia). cbn [fst].
      destruct (facts_after (stderr_lines (child env 0)) []) as [bn|p] eqn:Hf;
        [|discriminate].
      destruct (2 <=? List.length bn)%nat eqn:Hlen; cbn.
      * intros [= <- <-]. now left.
      * intros [= <- <-]. right. split; [reflexivity|].
        exists AtRead, (stderr_end (child env 0)). split; [reflexivity|].
        apply leb_2_false in Hlen. now apply (fails_read _ _ bn).
Qed.

(** A line with the marker [peer ID: ] contains [peer ID]. *)
Lemma first_at_peer_marker (line pre post : string) :
  first_at peer_marker line pre post -> strings.Contains line "peer ID" = true.
Proof.
  intros [-> _]. apply strings_facts.Contains_true.
  exists (String.length pre), pre, (": " ++ post). split; reflexivity.
Qed.

(** A line with the full address marker contains [Assigned to new
    address]. *)
Lemma first_at_addr_marker (line pre rest : string) :
  first_at addr_marker line pre rest ->
  strings.Contains line "Assigned to new address" = true.
Proof.
  intros [-> _]. apply strings_facts.Contains_true.
  exists (String.length pre), pre, ("; listening on " ++ rest).
  split; reflexivity.
Qed.

Lemma marker_nonempty (c : ascii) (s : string) : String c s <> EmptyString.
Proof. discriminate. Qed.

(** C7 (amended).  On a line that contains [peer ID: ], the peer identifier
    extracted is the text that follows the first [peer ID: ], up to the next
    [peer ID: ] if there is one, to the end of the line if not; the peer-ID
    rule appends it to [bootstrapNode]. *)
Theorem peer_id_of_spec (line pre post id : string) (bn : list string) :
  first_at peer_marker line pre post -> upto peer_marker post id ->
  peer_id_of line = Returns id /\
  peer_id_rule line bn = Returns (bn ++ [id])%list.
Proof.
  intros Hf Hu.
  assert (Hid : peer_id_of line = Returns id).
  { unfold peer_id_of.
    apply (strings_facts.Split_1 line peer_marker pre post id);
      [apply marker_nonempty | exact Hf | exact Hu]. }
  split; [exact Hid|].
  unfold peer_id_rule. now rewrite (first_at_peer_marker _ _ _ Hf), Hid.
Qed.

Lemma peer_id_of_spec_witness :
  first_at peer_marker "INFO peer ID: QmAbc123" "INFO " "QmAbc123" /\
  upto peer_marker "QmAbc123" "QmAbc123" /\
  peer_id_of "INFO peer ID: QmAbc123" = Returns "QmAbc123" /\
  peer_id_rule "INFO peer ID: QmAbc123" [] = Returns ["QmAbc123"].
Proof.
  assert (Hf : first_at peer_marker "INFO peer ID: QmAbc123" "INFO " "QmAbc123")
    by exact (strings_facts.Index_first_at peer_marker "INFO peer ID: QmAbc123" 5 eq_refl).
  assert (Hu : upto peer_marker "QmAbc123" "QmAbc123")
    by (right; split; [now apply strings_facts.Index_None | reflexivity]).
  split; [exact Hf | split; [exact Hu|]].
  exact (peer_id_of_spec "INFO peer ID: QmAbc123" "INFO " "QmAbc123" "QmAbc123"
           [] Hf Hu).
Defined.

(** C7 (as stated) fails: on a line with two [peer ID: ], the peer
    identifier extracted stops before the second one, short of the end of
    the line. *)
Lemma peer_id_of_stops_at_next_marker :
  let line := "peer ID: QmAbc123 peer ID: QmXyz789" in
  strings.Contains line "peer ID" = true /\
  first_at peer_marker line "" "QmAbc123 peer ID: QmXyz789" /\
  peer_id_of line = Returns "QmAbc123 " /\
  peer_id_of line <> Returns "QmAbc123 peer ID: QmXyz789".
Proof.
  cbv zeta. split; [reflexivity | split; [|split]].
  - split; [reflexivity | intros k Hk; cbn in Hk; lia].
  - reflexivity.
  - discriminate.
Qed.

(** C8 (amended).  On a line that contains the marker [Assigned to new
    address; listening on ], read while fewer than two facts are stored,
    the listen address extracted starts after the first marker and stops at
    the first of: the next marker, the next [ now], the end of the line.
    The address rule appends it to [bootstrapNode]. *)
Theorem address_of_spec (line pre rest piece addr : string) (bn : list string) :
  first_at addr_marker line pre rest ->
  upto addr_marker rest piece -> upto now_marker piece addr ->
  List.length bn < 2 ->
  address_of line = Returns addr /\
  address_rule line bn = Returns (bn ++ [addr])%list.
Proof.
  intros Hf Hp Hn Hlen.
  assert (Ha : address_of line = Returns addr).
  { unfold address_of. fold addr_marker. fold now_marker.
    rewrite (strings_facts.Split_1 line addr_marker pre rest piece
               (marker_nonempty _ _) Hf Hp).
    apply (strings_facts.Split_0 piece now_marker addr);
      [apply marker_nonempty | exact Hn]. }
  split; [exact Ha|].
  unfold address_rule. apply Nat.ltb_lt in Hlen.
  now rewrite (first_at_addr_marker _ _ _ Hf), Hlen, Ha.
Qed.

Lemma address_of_spec_witness :
  address_of addr_line = Returns "/ip4/127.0.0.1/tcp/4001" /\
  address_rule addr_line ["QmAbc123"] =
    Returns ["QmAbc123"; "/ip4/127.0.0.1/tcp/4001"].
Proof.
  assert (Hf : first_at addr_marker addr_line "INFO "
                 "/ip4/127.0.0.1/tcp/4001 now active")
    by exact (strings_facts.Index_first_at addr_marker addr_line 5 eq_refl).
  assert (Hp : upto addr_marker "/ip4/127.0.0.1/tcp/4001 now active"
                 "/ip4/127.0.0.1/tcp/4001 now active")
    by (right; split; [now apply strings_facts.Index_None | reflexivity]).
  assert (Hn : upto now_marker "/ip4/127.0.0.1/tcp/4001 now active"
                 "/ip4/127.0.0.1/tcp/4001").
  { left. exists " active".
    exact (strings_facts.Index_first_at now_marker
             "/ip4/127.0.0.1/tcp/4001 now active" 23 eq_refl). }
  assert (Hlen : List.length ["QmAbc123"] < 2) by (cbn; lia).
  exact (address_of_spec addr_line _ _ _ _ ["QmAbc123"] Hf Hp Hn Hlen).
Defined.

(** C8 (as stated) fails: on a line where the marker comes a second time
    before the first [ now], the address extracted stops before the second
    marker, short of the [ now]. *)
Lemma address_of_stops_at_next_marker :
  let line :=
    "Assigned to new address; listening on /ip4/a Assigned to new address; listening on /ip4/b now" in
  let rest := "/ip4/a Assigned to new address; listening on /ip4/b now" in
  strings.Contains line "Assigned to new address" = true /\
  first_at addr_marker line "" rest /\
  first_at now_marker rest
    "/ip4/a Assigned to new address; listening on /ip4/b" "" /\
  address_of line = Returns "/ip4/a " /\
  address_of line <>
    Returns "/ip4/a Assigned to new address; listening on /ip4/b".
Proof.
  cbv zeta. split; [reflexivity | split; [|split; [|split]]].
  - split; [reflexivity | intros k Hk; cbn in Hk; lia].
  - exact (strings_facts.Index_first_at now_marker
             "/ip4/a Assigned to new address; listening on /ip4/b now" 51 eq_refl).
  - reflexivity.
  - discriminate.
Qed.

(** The node count is logged before the first node is spawned. *)
Lemma spawn_logs_n (n : N) (env : Env) :
  install_result env = None -> In (spawning n) (events (spawn n env)).
Proof.
  intros Hi. unfold events. rewrite spawn_eq, Hi.
  destruct (n =? 0)%N; cbn [snd]; apply in_or_app; right; now left.
Qed.

(** C9.  Without a [Nodes] section [Start] works on 8 nodes, the default;
    with one, on its [N]. *)
Theorem Start_node_count (dir : option string) (steps : option (list string))
  (env : Env) :
  (num_nodes {| Nodes := None; DataDir := dir; Steps := steps |} = 8%N /\
   Start {| Nodes := None; DataDir := dir; Steps := steps |} env = spawn 8 env) /\
  (forall nodes : Nodes.t,
     num_nodes {| Nodes := Some nodes; DataDir := dir; Steps := steps |} =
       Nodes.N nodes /\
     Start {| Nodes := Some nodes; DataDir := dir; Steps := steps |} env =
       spawn (Nodes.N nodes) env).
Proof. split; [split; reflexivity | intros nodes; split; reflexivity]. Qed.

(** The default count at work: eight nodes are announced. *)
Example Start_default_logs_eight :
  Start (config None) (installed (logging [peer_line; addr_line] io_EOF)) =
  (Returns (Some {| Workers := [] |}, None),
   [spawning 8; starting; Started 0 smcd; ReadLine 0; ReadLine 0]).
Proof. reflexivity. Qed.

(** C10 (amended).  With a [Nodes] section of [N = 0], [Start] starts no
    node and reads no log; it returns a non-nil state without workers and
    no error, unless the install step of lines 59-71 runs and fails, in
    which case it returns that error and no state. *)
Theorem Start_zero_nodes (cfg : ScriptConfig) (nodes : Nodes.t) (env : Env) :
  Nodes cfg = Some nodes -> Nodes.N nodes = 0%N ->
  started (events (Start cfg env)) = [] /\
  reads (events (Start cfg env)) = [] /\
  result (Start cfg env) =
    match install_result env with
    | None => Returns (Some {| Workers := [] |}, None)
    | Some err => Returns (None, Some err)
    end.
Proof.
  intros Hnodes Hn. unfold Start, num_nodes, result, events.
  rewrite Hnodes, Hn, spawn_eq. cbn [N.eqb].
  destruct (install_result env); cbn [fst snd].
  - now rewrite started_install, reads_install.
  - unfold started, reads. rewrite !filter_app.
    fold (started (install_events env)). fold (reads (install_events env)).
    now rewrite started_install, reads_install.
Qed.

Lemma Start_zero_nodes_witness :
  let run := Start (config (Some (nodes_n 0)))
               (installed (logging [peer_line; addr_line] io_EOF)) in
  started (events run) = [] /\ reads (events run) = [] /\
  result run = Returns (Some {| Workers := [] |}, None).
Proof.
  exact (Start_zero_nodes (config (Some (nodes_n 0))) (nodes_n 0)
           (installed (logging [peer_line; addr_line] io_EOF))
           eq_refl eq_refl).
Defined.

(** C10 (as stated) fails: with [N = 0], [smcd] missing from the path and a
    failing [cargo install], [Start] returns the error of the install step
    and no state. *)
Lemma Start_zero_nodes_install_fails :
  let env := not_installed (Some (ErrOther "exit status 101"))
               (logging [peer_line; addr_line] io_EOF) in
  result (Start (config (Some (nodes_n 0))) env) =
    Returns (None, Some (ErrOther "exit status 101")) /\
  result (Start (config (Some (nodes_n 0))) env) <>
    Returns (Some {| Workers := [] |}, None).
Proof. split; [reflexivity | discriminate]. Qed.

(** ** Further facts about [strings] *)

Module split_facts.
Import strings strings_facts.

Lemma append_nil_r (s : string) : s ++ EmptyString = s.
Proof. induction s as [|c s IH]; simpl; [reflexivity | now rewrite IH]. Qed.

Lemma occurs_at_prefix (sub t x : string) (k : nat) :
  occurs_at sub t k -> occurs_at sub (t ++ x) k.
Proof.
  intros (pre & post & -> & Hlen). exists pre, (post ++ x).
  split; [now rewrite !append_assoc | exact Hlen].
Qed.

Lemma absent_prefix (sub t x : string) : absent sub (t ++ x) -> absent sub t.
Proof. intros H k Hocc. apply (H k). now apply occurs_at_prefix. Qed.

(** What [upto] cuts off is a prefix, free of the separator. *)
Lemma upto_prefix (sep s t : string) :
  sep <> EmptyString -> upto sep s t ->
  (exists post, s = t ++ post) /\ absent sep t.
Proof.
  intros Hsep [[post [-> Hfirst]]|[Habs ->]].
  - split; [now exists (sep ++ post)|].
    intros k Hocc. pose proof (occurs_at_bound _ _ _ Hocc) as Hb.
    assert (0 < String.length sep)
      by (destruct sep; [now elim Hsep | simpl; lia]).
    apply (Hfirst k); [lia | now apply occurs_at_prefix].
  - split; [exists EmptyString; now rewrite append_nil_r | exact Habs].
Qed.

(** [Split(s, sep)[0]], computed. *)
Lemma Split_0_eq (s sep : string) :
  sep <> EmptyString ->
  at_index (Split s sep) 0 =
  Returns (match Index s sep with Some m => slice_to s m | None => s end).
Proof. intros Hsep. apply Split_0; [exact Hsep | apply Index_upto]. Qed.

(** [Split(s, sep)[1]], computed. *)
Lemma Split_1_eq (s sep : string) :
  sep <> EmptyString ->
  at_index (Split s sep) 1 =
  match Index s sep with
  | None => Panics (IndexOutOfRange 1 1)
  | Some m =>
      let post := slice_from s (m + String.length sep) in
      Returns (match Index post sep with
               | Some m' => slice_to post m'
               | None => post
               end)
  end.
Proof.
  intros Hsep. destruct (Index s sep) as [m|] eqn:Hi.
  - apply (Split_1 s sep _ _ _ Hsep (Index_first_at _ _ _ Hi)).
    apply Index_upto.
  - apply Split_1_absent; [exact Hsep | now apply Index_None].
Qed.

Lemma Split_0_inv (s sep t : string) :
  sep <> EmptyString -> at_index (Split s sep) 0 = Returns t -> upto sep s t.
Proof.
  intros Hsep. rewrite (Split_0_eq s sep Hsep). intros [= <-].
  apply Index_upto.
Qed.

Lemma Split_1_inv (s sep t : string) :
  sep <> EmptyString -> at_index (Split s sep) 1 = Returns t ->
  exists pre post, first_at sep s pre post /\ upto sep post t.
Proof.
  intros Hsep. rewrite (Split_1_eq s sep Hsep).
  destruct (Index s sep) as [m|] eqn:Hi; [|discriminate].
  cbv zeta. intros [= <-].
  exists (slice_to s m), (slice_from s (m + String.length sep)).
  split; [now apply Index_first_at | apply Index_upto].
Qed.

End split_facts.

(** ** Further facts about the launcher *)

Lemma peer_id_of_cases (line : string) :
  peer_id_of line =
  if strings.Contains line "peer ID: "
  then peer_id_of line
  else Panics (IndexOutOfRange 1 1).
Proof.
  destruct (strings.Contains line "peer ID: ") eqn:Hc; [reflexivity|].
  apply strings_facts.Contains_false in Hc. unfold peer_id_of.
  now apply strings_facts.Split_1_absent.
Qed.

(** With the marker in the line, line 116 does not panic. *)
Lemma peer_id_of_returns (line : string) :
  strings.Contains line "peer ID: " = true ->
  exists id, peer_id_of line = Returns id.
Proof.
  unfold peer_id_of, strings.Contains.
  rewrite split_facts.Split_1_eq by discriminate.
  destruct (strings.Index line "peer ID: "); [|discriminate].
  intros _. eexists. reflexivity.
Qed.

(** With the full marker in the line, line 123 does not panic. *)
Lemma address_of_returns (line : string) :
  strings.Contains line "Assigned to new address; listening on " = true ->
  exists addr, address_of line = Returns addr.
Proof.
  unfold address_of, strings.Contains.
  rewrite split_facts.Split_1_eq by discriminate.
  destruct (strings.Index line _); [|discriminate].
  intros _. cbv beta iota zeta. rewrite split_facts.Split_0_eq by discriminate.
  eexists. reflexivity.
Qed.

Lemma address_of_panics (line : string) :
  strings.Contains line "Assigned to new address; listening on " = false ->
  address_of line = Panics (IndexOutOfRange 1 1).
Proof.
  intros Hc. apply strings_facts.Contains_false in Hc. unfold address_of.
  now rewrite strings_facts.Split_1_absent.
Qed.

(** ** Further properties *)

(** X1.  The peer identifier line 116 extracts is a piece of the line: it
    stands right after the first [peer ID: ] of the line, and holds no
    [peer ID: ] itself. *)
Theorem peer_id_of_sound (line id : string) :
  peer_id_of line = Returns id ->
  exists pre post,
    line = pre ++ peer_marker ++ id ++ post /\
    (forall k, k < String.length pre -> ~ occurs_at peer_marker line k) /\
    absent peer_marker id.
Proof.
  unfold peer_id_of. intros H.
  apply split_facts.Split_1_inv in H as (pre & rest & [-> Hfirst] & Hu);
    [|discriminate].
  apply split_facts.upto_prefix in Hu as [[post ->] Habs]; [|discriminate].
  exists pre, post. repeat split; assumption.
Qed.

Lemma peer_id_of_sound_witness :
  exists pre post,
    both_line = pre ++ peer_marker ++
      "QmAbc123 Assigned to new address; listening on /ip4/a now" ++ post /\
    (forall k, k < String.length pre -> ~ occurs_at peer_marker both_line k) /\
    absent peer_marker
      "QmAbc123 Assigned to new address; listening on /ip4/a now".
Proof.
  exact (peer_id_of_sound both_line
           "QmAbc123 Assigned to new address; listening on /ip4/a now" eq_refl).
Defined.

(** X2.  The listen address line 123 extracts is a piece of the line: it
    stands right after the first full marker of the line, and holds
    neither the marker nor [ now]. *)
Theorem address_of_sound (line addr : string) :
  address_of line = Returns addr ->
  exists pre post,
    line = pre ++ addr_marker ++ addr ++ post /\
    (forall k, k < String.length pre -> ~ occurs_at addr_marker line k) /\
    absent addr_marker addr /\ absent now_marker addr.
Proof.
  unfold address_of.
  destruct (at_index (strings.Split line _) 1) as [piece|p] eqn:H1;
    [|discriminate].
  intros H0.
  apply split_facts.Split_1_inv in H1 as (pre & rest & [-> Hfirst] & Hu);
    [|discriminate].
  apply split_facts.upto_prefix in Hu as [[post1 ->] Habs1]; [|discriminate].
  apply split_facts.Split_0_inv in H0; [|discriminate].
  apply split_facts.upto_prefix in H0 as [[post0 ->] Habs0]; [|discriminate].
  exists pre, (post0 ++ post1). repeat split.
  - now rewrite !strings_facts.append_assoc.
  - exact Hfirst.
  - now apply (split_facts.absent_prefix _ _ post0).
  - exact Habs0.
Qed.

Lemma address_of_sound_witness :
  exists pre post,
    addr_line = pre ++ addr_marker ++ "/ip4/127.0.0.1/tcp/4001" ++ post /\
    (forall k, k < String.length pre -> ~ occurs_at addr_marker addr_line k) /\
    absent addr_marker "/ip4/127.0.0.1/tcp/4001" /\
    absent now_marker "/ip4/127.0.0.1/tcp/4001".
Proof.
  exact (address_of_sound addr_line "/ip4/127.0.0.1/tcp/4001" eq_refl).
Defined.

(** X3.  Lines 115-124 panic on exactly these lines: one with [peer ID] but
    without [peer ID: ], or one with [Assigned to new address] but without
    the full marker, read while fewer than two facts are stored once the
    peer-ID rule has had its turn.  On every other line they return. *)
Theorem scan_line_panics_iff (line : string) (bn : list string) :
  (exists p, scan_line line bn = Panics p) <-> panics_on line bn.
Proof.
  unfold scan_line, peer_id_rule, address_rule, panics_on.
  destruct (strings.Contains line "peer ID") eqn:Hp.
  - rewrite peer_id_of_cases.
    destruct (strings.Contains line "peer ID: ") eqn:Hpm.
    + destruct (peer_id_of_returns line Hpm) as [id ->].
      rewrite length_app. cbn [List.length].
      destruct (strings.Contains line "Assigned to new address") eqn:Ha;
        cbn [andb].
      * destruct (strings.Contains line "Assigned to new address; listening on ")
        eqn:Ham.
        { destruct (address_of_returns line Ham) as [addr ->]. split.
          - intros [p H]. destruct (_ <? 2)%nat; discriminate.
          - intros [[_ H]|(_ & H & _)]; discriminate. }
        rewrite (address_of_panics line Ham).
        destruct (Nat.ltb_spec (List.length bn + 1) 2) as [Hlt|Hge]; split.
        { intros _. right. repeat split. exact Hlt. }
        { intros _. now eexists. }
        { intros [p H]. discriminate. }
        { intros [[_ H]|(_ & _ & H)]; [discriminate | lia]. }
      * split; [intros [p H]; discriminate|].
        intros [[_ H]|(H & _)]; discriminate.
    + split; [intros _; now left | intros _; now eexists].
  - destruct (strings.Contains line "Assigned to new address") eqn:Ha;
      cbn [andb].
    + rewrite Nat.add_0_r.
      destruct (strings.Contains line "Assigned to new address; listening on ")
        eqn:Ham.
      { destruct (address_of_returns line Ham) as [addr ->]. split.
        - intros [p H]. destruct (_ <? 2)%nat; discriminate.
        - intros [[H _]|(_ & H & _)]; discriminate. }
      rewrite (address_of_panics line Ham).
      destruct (Nat.ltb_spec (List.length bn) 2) as [Hlt|Hge]; split.
      { intros _. right. repeat split. exact Hlt. }
      { intros _. now eexists. }
      { intros [p H]. discriminate. }
      { intros [[H _]|(_ & _ & H)]; [discriminate | lia]. }
    + split; [intros [p H]; discriminate|].
      intros [[H _]|(H & _)]; discriminate.
Qed.

Lemma scan_line_panics_iff_witness :
  (exists p, scan_line "peer ID: QmAbc123 Assigned to new address" [] = Panics p) /\
  ~ (exists p, scan_line "peer ID: QmAbc123 Assigned to new address" ["QmXyz789"]
               = Panics p).
Proof.
  split.
  - apply (proj2 (scan_line_panics_iff _ [])).
    right. repeat split. cbn. lia.
  - intros H. apply (proj1 (scan_line_panics_iff _ ["QmXyz789"])) in H.
    destruct H as [[_ H]|(_ & _ & H)]; [discriminate | cbn in H; lia].
Defined.

Lemma scan_line_plain (line : string) (bn : list string) :
  plain_line line -> scan_line line bn = Returns bn.
Proof.
  intros [Hp Ha]. unfold scan_line, peer_id_rule, address_rule.
  now rewrite Hp, Ha.
Qed.

(** One line appends to [bootstrapNode], never past two entries. *)
Lemma scan_line_appends (line : string) (bn bn1 : list string) :
  List.length bn < 2 -> scan_line line bn = Returns bn1 ->
  List.length bn1 <= 2 /\ exists added, bn1 = (bn ++ added)%list.
Proof.
  intros Hlen. unfold scan_line, peer_id_rule, address_rule.
  destruct (strings.Contains line "peer ID").
  - destruct (peer_id_of line) as [id|p]; [|discriminate].
    destruct (strings.Contains line "Assigned to new address"); cbn [andb].
    + destruct (Nat.ltb_spec (List.length (bn ++ [id])) 2) as [Hlt|Hge].
      * destruct (address_of line) as [addr|p]; [|discriminate].
        intros [= <-]. rewrite !length_app in *. cbn [List.length] in *.
        split; [lia|]. exists [id; addr]. now rewrite <- app_assoc.
      * intros [= <-]. rewrite length_app in *. cbn [List.length] in *.
        split; [lia | now exists [id]].
    + intros [= <-]. rewrite length_app. cbn [List.length].
      split; [lia | now exists [id]].
  - destruct (strings.Contains line "Assigned to new address"); cbn [andb].
    + destruct (Nat.ltb_spec (List.length bn) 2) as [Hlt|Hge]; [|lia].
      destruct (address_of line) as [addr|p]; [|discriminate].
      intros [= <-]. rewrite length_app. cbn [List.length].
      split; [lia | now exists [addr]].
    + intros [= <-]. split; [lia | exists []; now rewrite app_nil_r].
Qed.

(** X4.  Lines with neither [peer ID] nor [Assigned to new address] are
    read and dropped: put before a stream, they cost one read each and
    change nothing else of what discovery does on that stream. *)
Theorem discovery_skips_plain_lines (i : N) (noise lines : list string)
  (e : error) (bn : list string) :
  Forall plain_line noise -> List.length bn < 2 ->
  read_loop i (noise ++ lines) e bn =
  (fst (read_loop i lines e bn),
   (repeat (ReadLine i) (List.length noise) ++ snd (read_loop i lines e bn))%list).
Proof.
  intros Hnoise Hlen. induction Hnoise as [|line noise Hline _ IH].
  - cbn [app List.length repeat]. now destruct (read_loop i lines e bn).
  - cbn [app]. rewrite read_loop_cons, (scan_line_plain line bn Hline).
    apply leb_2_false in Hlen. rewrite Hlen, IH. reflexivity.
Qed.

Lemma discovery_skips_plain_lines_witness :
  read_loop 0 (["INFO starting"; "WARN no peers"] ++ [peer_line; addr_line])
    io_EOF [] =
  (Returns (inr ["QmAbc123"; "/ip4/127.0.0.1/tcp/4001"]),
   [ReadLine 0; ReadLine 0; ReadLine 0; ReadLine 0]).
Proof.
  apply (discovery_skips_plain_lines 0 ["INFO starting"; "WARN no peers"]
           [peer_line; addr_line] io_EOF []).
  - repeat constructor.
  - cbn. lia.
Defined.

(** X5.  When discovery breaks out of its loop, [bootstrapNode] has two
    entries exactly, and what was stored before is still its beginning:
    facts are appended, never dropped nor overwritten. *)
Theorem discovery_two_facts (i : N) (lines : list string) (e : error)
  (bn bn' : list string) (t : list event) :
  List.length bn < 2 ->
  read_loop i lines e bn = (Returns (inr bn'), t) ->
  List.length bn' = 2 /\ exists added, bn' = (bn ++ added)%list.
Proof.
  revert bn t; induction lines as [|line rest IH]; intros bn t Hlen.
  - cbn. discriminate.
  - rewrite read_loop_cons.
    destruct (scan_line line bn) as [bn1|p] eqn:Hs; [|discriminate].
    destruct (scan_line_appends line bn bn1 Hlen Hs) as [Hle [added ->]].
    destruct (Nat.leb_spec 2 (List.length (bn ++ added))) as [Hge|Hlt].
    + intros [= <- _]. split; [lia | now exists added].
    + destruct (read_loop i rest e (bn ++ added)) as [r t'] eqn:Hr. cbn.
      intros [= -> _].
      destruct (IH _ _ Hlt Hr) as [H2 [added' ->]].
      split; [exact H2|]. exists (added ++ added')%list.
      now rewrite app_assoc.
Qed.

Lemma discovery_two_facts_witness :
  List.length ["QmAbc123"; "/ip4/127.0.0.1/tcp/4001"] = 2 /\
  exists added, ["QmAbc123"; "/ip4/127.0.0.1/tcp/4001"] = (["QmAbc123"] ++ added)%list.
Proof.
  apply (discovery_two_facts 0 ["INFO ready"; addr_line; peer_line] io_EOF
           ["QmAbc123"] _ [ReadLine 0; ReadLine 0]).
  - cbn. lia.
  - reflexivity.
Defined.

(** X6.  A line that both rules read gives both facts at once: discovery
    ends on it after one read, with the peer ID of the line first and its
    address second. *)
Theorem one_line_both_facts (i : N) (line id addr : string)
  (rest : list string) (e : error) :
  strings.Contains line "peer ID" = true ->
  strings.Contains line "Assigned to new address" = true ->
  peer_id_of line = Returns id -> address_of line = Returns addr ->
  read_loop i (line :: rest) e [] = (Returns (inr [id; addr]), [ReadLine i]).
Proof.
  intros Hp Ha Hid Haddr. rewrite read_loop_cons.
  unfold scan_line, peer_id_rule, address_rule.
  now rewrite Hp, Hid, Ha, Haddr.
Qed.

Lemma one_line_both_facts_witness :
  read_loop 0 [both_line; "INFO ready"] io_EOF [] =
  (Returns (inr ["QmAbc123 Assigned to new address; listening on /ip4/a now";
                 "/ip4/a"]),
   [ReadLine 0]).
Proof.
  apply (one_line_both_facts 0 both_line); reflexivity.
Defined.

(** X7.  Once discovery has broken out of its loop, the rest of the stream
    does not matter: more lines after those read, or another end of the
    stream, give the same facts after the same reads. *)
Theorem discovery_stops (i : N) (lines more : list string) (e e' : error)
  (bn bn' : list string) (t : list event) :
  read_loop i lines e bn = (Returns (inr bn'), t) ->
  read_loop i (lines ++ more) e' bn = (Returns (inr bn'), t).
Proof.
  revert bn t; induction lines as [|line rest IH]; intros bn t.
  - cbn. discriminate.
  - cbn [app]. rewrite !read_loop_cons.
    destruct (scan_line line bn) as [bn1|p]; [|discriminate].
    destruct (2 <=? List.length bn1)%nat; [exact (fun H => H)|].
    destruct (read_loop i rest e bn1) as [r t'] eqn:Hr. cbn.
    intros [= -> <-]. now rewrite (IH _ _ Hr).
Qed.

Lemma discovery_stops_witness :
  read_loop 0 ([peer_line; addr_line] ++ ["peer ID"])
    (ErrOther "read |0: file already closed") [] =
  (Returns (inr ["QmAbc123"; "/ip4/127.0.0.1/tcp/4001"]), [ReadLine 0; ReadLine 0]).
Proof.
  apply (discovery_stops 0 [peer_line; addr_line] ["peer ID"] io_EOF).
  reflexivity.
Defined.

(** The events of the bootstrap step: a log entry, one start at most, and
    reads. *)
Lemma bootstrap_events (env : Env) (i : N) :
  exists k,
    snd (bootstrap env i []) = starting :: repeat (ReadLine i) 0 \/
    snd (bootstrap env i []) = starting :: Started i smcd :: repeat (ReadLine i) k.
Proof.
  rewrite bootstrap_eq.
  destruct (pipe_err (child env i)); [exists 0; now left|].
  destruct (start_err (child env i)); [exists 0; now left|].
  rewrite read_loop_facts by (cbn; lia).
  eexists. right. reflexivity.
Qed.

Lemma must_install_iff (env : Env) :
  must_install env = true <->
  exec_LookPath env "smcd" <> None \/
  IsNotExist (os_Stat env "cargo.toml") = false.
Proof.
  unfold must_install, IsNotExist.
  destruct (exec_LookPath env "smcd"), (os_Stat env "cargo.toml") as [[| |msg]|];
    cbn; split; intros H; try reflexivity; try discriminate;
    try (now left); try (now right);
    destruct H as [H|H]; try discriminate; now elim H.
Qed.

(** X8.  [Start] succeeds in exactly two cases, the install step out of the
    way: the node count is zero, or the bootstrap node starts and its log
    gives two facts before it stops.  It then returns the empty state. *)
Theorem Start_succeeds_iff (cfg : ScriptConfig) (env : Env) :
  result (Start cfg env) = Returns (Some {| Workers := [] |}, None) <->
  install_result env = None /\
  (num_nodes cfg = 0%N \/
   (pipe_err (child env 0) = None /\ start_err (child env 0) = None /\
    exists bn, facts_after (stderr_lines (child env 0)) [] = Returns bn /\
               2 <= List.length bn)).
Proof.
  unfold Start, result. rewrite spawn_eq.
  destruct (install_result env) as [e|].
  { split; [discriminate | intros [H _]; discriminate]. }
  destruct (N.eqb_spec (num_nodes cfg) 0) as [Hn|Hn]; cbn [fst].
  { split; [intros _; split; [reflexivity | now left] | reflexivity]. }
  rewrite bootstrap_eq.
  destruct (pipe_err (child env 0)) as [e|].
  { split; [discriminate|]. intros [_ [H|(H & _)]]; [now elim Hn | discriminate]. }
  destruct (start_err (child env 0)) as [e|].
  { split; [discriminate|].
    intros [_ [H|(_ & H & _)]]; [now elim Hn | discriminate]. }
  rewrite read_loop_facts by (cbn; lia). cbn [fst].
  destruct (facts_after (stderr_lines (child env 0)) []) as [bn|p].
  - destruct (Nat.leb_spec 2 (List.length bn)) as [Hge|Hlt]; cbn; split.
    + intros _. split; [reflexivity|]. right. repeat split. now exists bn.
    + reflexivity.
    + discriminate.
    + intros [_ [H|(_ & _ & bn' & [= <-] & H)]]; [now elim Hn | lia].
  - cbn. split; [discriminate|].
    intros [_ [H|(_ & _ & bn' & H & _)]]; [now elim Hn | discriminate].
Qed.

Lemma Start_succeeds_iff_witness :
  result (Start (config None)
            (installed (logging ["INFO starting"; both_line] io_EOF))) =
  Returns (Some {| Workers := [] |}, None).
Proof.
  apply (proj2 (Start_succeeds_iff (config None)
                  (installed (logging ["INFO starting"; both_line] io_EOF)))).
  split; [reflexivity|]. right. repeat split.
  eexists. split; [reflexivity | cbn; lia].
Defined.

(** X9.  Beyond telling zero from more, the node count changes nothing but
    the number logged: two configurations with counts above zero give the
    same result, start the same processes and read the same lines. *)
Theorem node_count_irrelevant (cfg cfg' : ScriptConfig) (env : Env) :
  num_nodes cfg <> 0%N -> num_nodes cfg' <> 0%N ->
  result (Start cfg env) = result (Start cfg' env) /\
  started (events (Start cfg env)) = started (events (Start cfg' env)) /\
  reads (events (Start cfg env)) = reads (events (Start cfg' env)).
Proof.
  intros Hn Hn'. unfold Start, result, events. rewrite !spawn_eq.
  apply N.eqb_neq in Hn, Hn'. rewrite Hn, Hn'.
  destruct (install_result env); cbn [fst snd]; [now repeat split|].
  unfold started, reads. rewrite !filter_app. now repeat split.
Qed.

Lemma node_count_irrelevant_witness :
  let env := installed (logging [peer_line; addr_line] io_EOF) in
  result (Start (config (Some (nodes_n 1))) env) =
    result (Start (config (Some (nodes_n 1000))) env) /\
  started (events (Start (config (Some (nodes_n 1))) env)) =
    started (events (Start (config (Some (nodes_n 1000))) env)) /\
  reads (events (Start (config (Some (nodes_n 1))) env)) =
    reads (events (Start (config (Some (nodes_n 1000))) env)).
Proof.
  intros env.
  apply (node_count_irrelevant (config (Some (nodes_n 1)))
           (config (Some (nodes_n 1000))) env); discriminate.
Defined.

(** X10.  [Start] runs [cargo install --path .] when [smcd] is not on the
    path, and also whenever [os.Stat("cargo.toml")] does not fail with a
    not-exist error: with a [cargo.toml] in the working directory SMCd is
    installed again on every start.  Otherwise it does not run it. *)
Theorem Start_installs_iff (cfg : ScriptConfig) (env : Env) :
  In (Ran (exec_Command "cargo" ["install"; "--path"; "."]))
     (events (Start cfg env)) <->
  exec_LookPath env "smcd" <> None \/
  IsNotExist (os_Stat env "cargo.toml") = false.
Proof.
  rewrite <- must_install_iff. unfold Start, events. rewrite spawn_eq.
  assert (Hinst : In (Ran (exec_Command "cargo" ["install"; "--path"; "."]))
                     (install_events env) <-> must_install env = true).
  { unfold install_events. destruct (must_install env); cbn; split; intros H;
      try reflexivity; try discriminate; try (now right; left); now elim H. }
  destruct (install_result env); cbn [snd]; [exact Hinst|].
  rewrite <- Hinst.
  destruct (num_nodes cfg =? 0)%N; cbn [snd]; rewrite in_app_iff;
    (split; [intros [H|H]; [exact H|exfalso] | intros H; now left]).
  - destruct H as [H|[]]. discriminate.
  - destruct H as [H|H]; [discriminate|].
    destruct (bootstrap_events env 0) as [k [E|E]]; rewrite E in H.
    + destruct H as [H|[]]. discriminate.
    + destruct H as [H|[H|H]]; try discriminate.
      apply repeat_spec in H. discriminate.
Qed.

Lemma Start_installs_iff_witness :
  let env := {| os_Stat := fun _ => None;
                exec_LookPath := fun _ => None;
                Run := fun _ => None;
                child := fun _ => logging [peer_line; addr_line] io_EOF |} in
  In (Ran (exec_Command "cargo" ["install"; "--path"; "."]))
     (events (Start (config None) env)).
Proof.
  intros env. apply (proj2 (Start_installs_iff (config None) env)).
  right. reflexivity.
Defined.

(** X11.  When a line of the bootstrap node's log makes lines 115-124
    panic, [Start] panics with the bootstrap node started: the child is
    left running. *)
Theorem Start_panic_leaves_child (cfg : ScriptConfig) (env : Env) (p : panic) :
  reaches_log (num_nodes cfg) env ->
  facts_after (stderr_lines (child env 0)) [] = Panics p ->
  result (Start cfg env) = Panics p /\
  started (events (Start cfg env)) = [Started 0 smcd].
Proof.
  intros (Hi & Hn & Hp & Hs) Hf. unfold Start, result, events.
  rewrite spawn_eq, Hi. apply N.eqb_neq in Hn. rewrite Hn.
  rewrite (bootstrap_reading env 0 Hp Hs), Hf. cbn [fst snd Start_returns].
  split; [reflexivity|].
  unfold started. rewrite filter_app. fold (started (install_events env)).
  rewrite started_install. cbn [filter is_started spawning starting app].
  fold (started (repeat (ReadLine 0)
                   (lines_read (stderr_lines (child env 0)) []))).
  now rewrite started_reads.
Qed.

Lemma Start_panic_leaves_child_witness :
  let env := installed (logging [peer_line; "Assigned to new address"] io_EOF) in
  result (Start (config None) env) = Panics (IndexOutOfRange 1 1) /\
  started (events (Start (config None) env)) = [Started 0 smcd].
Proof.
  intros env. apply (Start_panic_leaves_child (config None) env).
  - repeat split. discriminate.
  - reflexivity.
Defined.

(** ** Further facts about the command line *)

(** [readConfig], case by case. *)
Lemma readConfig_eq (fs : Files) (c : Context) :
  readConfig fs c =
  match os_Open fs (flag c "config") with
  | Some err =>
      (Done (None,
             Some (if strings.Contains (Error fs err) "no such file or directory"
                   then errors_New "no finkles config found in the working directory"
                   else err)),
       [])
  | None =>
      (Done (Some (fst (Decode fs (flag c "config"))),
             snd (Decode fs (flag c "config"))),
       [Opened (flag c "config"); Closed (flag c "config")])
  end.
Proof.
  unfold readConfig. destruct (os_Open fs (flag c "config")) as [err|].
  - now destruct (strings.Contains (Error fs err) _).
  - now destruct (Decode fs (flag c "config")).
Qed.

(** The script of the [spawn] command has the node count [spawn_count]. *)
Lemma num_nodes_spawn_script (cfg : Config) :
  num_nodes (spawn_script cfg) = spawn_count cfg.
Proof.
  unfold spawn_script, spawn_count, num_nodes.
  destruct (Spawn cfg) as [[[nodes|] dir steps]|]; reflexivity.
Qed.

(** The [spawn] command on a configuration that opens. *)
Lemma spawn_action_opened (fs : Files) (env : Env) (c : Context) :
  os_Open fs (flag c "config") = None ->
  spawn_action fs env c =
  match snd (Decode fs (flag c "config")) with
  | Some err =>
      (Done (Some err), [Opened (flag c "config"); Closed (flag c "config")])
  | None =>
      let n := spawn_count (fst (Decode fs (flag c "config"))) in
      (match result (spawn n env) with
       | Returns (_, err) => Done err
       | Panics p => Crashes (Panicked p)
       end,
       Opened (flag c "config") :: Closed (flag c "config") ::
         map Node (events (spawn n env)))
  end.
Proof.
  intros Ho. unfold spawn_action. rewrite readConfig_eq, Ho.
  destruct (Decode fs (flag c "config")) as [cfg [err|]]; [reflexivity|].
  cbn [io_bind snd fst deref io_ret app]. unfold Start.
  rewrite num_nodes_spawn_script. unfold run, result, events.
  destruct (spawn (spawn_count cfg) env) as [[[st [err|]]|p] t]; cbn;
    now rewrite ?app_nil_r.
Qed.

(** X12.  Neither command dereferences a [nil] configuration: when
    [readConfig] returns no error, it returns a configuration. *)
Theorem actions_never_nil (fs : Files) (env : Env) (c : Context) :
  fst (spawn_action fs env c) <> Crashes NilDereference /\
  fst (test_action fs c) <> Crashes NilDereference.
Proof.
  split.
  - destruct (os_Open fs (flag c "config")) as [e|] eqn:Ho.
    + unfold spawn_action. rewrite readConfig_eq, Ho. discriminate.
    + rewrite (spawn_action_opened fs env c Ho).
      destruct (snd (Decode fs (flag c "config"))); [discriminate|].
      cbv zeta. destruct (result (spawn _ env)) as [[st err]|p]; discriminate.
  - unfold test_action. rewrite readConfig_eq.
    destruct (os_Open fs (flag c "config")); [discriminate|].
    destruct (Decode fs (flag c "config")) as [cfg [err|]]; [discriminate|].
    cbn. destruct (Test cfg); discriminate.
Qed.

(** X13.  When the configuration file does not open, both commands return
    an error and touch nothing: no file is opened, nothing is installed
    or started.  An error whose text holds [no such file or directory]
    is replaced by [no finkles config found in the working directory]; any
    other error is returned as it is. *)
Theorem actions_without_config (fs : Files) (env : Env) (c : Context)
  (err : error) :
  os_Open fs (flag c "config") = Some err ->
  let reported :=
    if strings.Contains (Error fs err) "no such file or directory"
    then errors_New "no finkles config found in the working directory"
    else err in
  spawn_action fs env c = (Done (Some reported), []) /\
  test_action fs c = (Done (Some reported), []).
Proof.
  intros Ho reported. unfold spawn_action, test_action.
  rewrite readConfig_eq, Ho. split; reflexivity.
Qed.

Lemma actions_without_config_witness :
  let fs := unreadable ErrNotExist "open .finkles.yaml: no such file or directory" in
  let env := installed (logging [peer_line; addr_line] io_EOF) in
  spawn_action fs env (config_flag ".finkles.yaml") =
    (Done (Some (ErrOther "no finkles config found in the working directory")), []) /\
  test_action fs (config_flag ".finkles.yaml") =
    (Done (Some (ErrOther "no finkles config found in the working directory")), []).
Proof.
  intros fs env.
  exact (actions_without_config fs env (config_flag ".finkles.yaml")
           ErrNotExist eq_refl).
Defined.

(** X14.  When the configuration file opens but does not decode, the
    [spawn] command returns the error of the decoder, the file opened and
    closed and nothing else done, although [readConfig] has returned a
    configuration with the error. *)
Theorem spawn_action_decode_error (fs : Files) (env : Env) (c : Context)
  (err : error) :
  os_Open fs (flag c "config") = None ->
  snd (Decode fs (flag c "config")) = Some err ->
  (exists cfg, fst (readConfig fs c) = Done (Some cfg, Some err)) /\
  spawn_action fs env c =
    (Done (Some err), [Opened (flag c "config"); Closed (flag c "config")]).
Proof.
  intros Ho Hd. split.
  - rewrite readConfig_eq, Ho, Hd. now eexists.
  - now rewrite (spawn_action_opened fs env c Ho), Hd.
Qed.

Lemma spawn_action_decode_error_witness :
  let cfg := {| Embedded := config (Some (nodes_n 3)); Test := None; Spawn := None |} in
  let fs := readable cfg (Some (ErrOther "yaml: line 2: mapping values are not allowed")) in
  let env := installed (logging [peer_line; addr_line] io_EOF) in
  (exists cfg', fst (readConfig fs (config_flag ".finkles.yaml")) =
     Done (Some cfg', Some (ErrOther "yaml: line 2: mapping values are not allowed"))) /\
  spawn_action fs env (config_flag ".finkles.yaml") =
    (Done (Some (ErrOther "yaml: line 2: mapping values are not allowed")),
     [Opened ".finkles.yaml"; Closed ".finkles.yaml"]).
Proof.
  intros cfg fs env.
  exact (spawn_action_decode_error fs env (config_flag ".finkles.yaml") _
           eq_refl eq_refl).
Defined.

(** X15.  On a configuration that opens and decodes, the [spawn] command
    closes the file and then does what [Start] does on this node count:
    the [N] of the [Spawn] section if it has a [Nodes] section, else the
    [N] of the global [Nodes] section, else 8.  A [Spawn] section without
    [Nodes] is passed over.  The command returns the error of [Start] and
    drops its state. *)
Theorem spawn_action_runs_Start (fs : Files) (env : Env) (c : Context)
  (cfg : Config) :
  os_Open fs (flag c "config") = None ->
  Decode fs (flag c "config") = (cfg, None) ->
  spawn_action fs env c =
  (match result (spawn (spawn_count cfg) env) with
   | Returns (_, err) => Done err
   | Panics p => Crashes (Panicked p)
   end,
   Opened (flag c "config") :: Closed (flag c "config") ::
     map Node (events (spawn (spawn_count cfg) env))).
Proof.
  intros Ho Hd. now rewrite (spawn_action_opened fs env c Ho), Hd.
Qed.

Lemma spawn_action_runs_Start_witness :
  let cfg := {| Embedded := config (Some (nodes_n 3));
                Test := None;
                Spawn := Some {| Nodes := None;
                                 DataDir := Some "data"; Steps := None |} |} in
  spawn_action (readable cfg None)
    (installed (logging [peer_line; addr_line] io_EOF))
    (config_flag ".finkles.yaml") =
  (Done None,
   [Opened ".finkles.yaml"; Closed ".finkles.yaml";
    Node (spawning 3); Node starting; Node (Started 0 smcd);
    Node (ReadLine 0); Node (ReadLine 0)]).
Proof.
  intros cfg.
  exact (spawn_action_runs_Start (readable cfg None)
           (installed (logging [peer_line; addr_line] io_EOF))
           (config_flag ".finkles.yaml") cfg eq_refl eq_refl).
Defined.

(** X16.  The [test] command installs nothing and starts nothing; it
    returns no error exactly when the configuration file opens, decodes
    and has a [Test] section. *)
Theorem test_action_spec (fs : Files) (c : Context) :
  filter is_node (snd (test_action fs c)) = [] /\
  (fst (test_action fs c) = Done None <->
   os_Open fs (flag c "config") = None /\
   snd (Decode fs (flag c "config")) = None /\
   Test (fst (Decode fs (flag c "config"))) <> None).
Proof.
  unfold test_action. rewrite readConfig_eq.
  destruct (os_Open fs (flag c "config")) as [e|].
  { split; [reflexivity|]. split; [discriminate | intros [H _]; discriminate]. }
  destruct (Decode fs (flag c "config")) as [cfg [err|]]; cbn.
  { split; [reflexivity|].
    split; [discriminate | intros (_ & H & _); discriminate]. }
  destruct (Test cfg) as [script|]; cbn; split; try reflexivity.
  - split; [intros _; repeat split; discriminate | reflexivity].
  - split; [discriminate | intros (_ & _ & H); now elim H].
Qed.

Lemma test_action_spec_witness :
  let cfg := {| Embedded := config None; Test := Some (config None); Spawn := None |} in
  fst (test_action (readable cfg None) (config_flag ".finkles.yaml")) = Done None.
Proof.
  intros cfg.
  apply (proj2 (proj2 (test_action_spec (readable cfg None)
                         (config_flag ".finkles.yaml")))).
  repeat split. discriminate.
Defined.



